(** * Prompt assembly and response-format derivation (package [server])

    A shallow embedding of [server/prompt.go] ([chatPrompt],
    [checkMllamaModelFamily], [chatFormat]) and of the tool-schema
    formatter ([parametersFormat], [toolFormat], [toolsFormat],
    [chatFormat]), followed by the properties the specification states
    about them.

    Conventions.  Go [int] values are [Z]; the only arithmetic performed on
    them is on slice lengths and small products of slice lengths, which
    cannot leave the 64-bit range for slices that fit in memory.  Go
    [string] is [string] (a sequence of bytes), [[]byte] is
    [list Byte.byte].  A Go function returning [(v, err)] whose value is
    ignored when [err != nil] is a function into [error + V]. *)

From Stdlib Require Import ZArith String Ascii List Lia DecimalString.
From stdpp Require Import base option list gmap strings.

Set Warnings "-register-all".

Open Scope Z_scope.

(** ** Errors *)

(** [errTooManyImages] and the [fmt.Errorf] of [chatPrompt] are the two
    errors the package creates itself; every other error comes from a
    collaborator (template, tokenizer, image preprocessing). *)
Inductive error : Type :=
| errTooManyImages
    (* "vision model only supports a single image per message" *)
| errMissingAspectRatio
    (* fmt.Errorf("missing aspect ratio for image") *)
| errExternal (msg : string).

(** ** The [api] and [llm] data types *)

Module api.

(** Modelled from the spec: [api.ImageData], the raw bytes of an image. *)
Definition ImageData : Type := list Byte.byte.

(** Modelled from the spec: [api.Message], of which the code reads
    [Role], [Content] and [Images] and writes [Content]. *)
Record Message : Type := mkMessage {
  Role : string;
  Content : string;
  Images : list ImageData
}.

(** Modelled from the spec: one entry of [ToolParameters.Properties];
    the code reads [Type] and [Enum]. *)
Record ToolProperty : Type := mkToolProperty {
  Type_ : string;
  Enum : list string
}.

(** Modelled from the spec: [api.ToolParameters], of which the code reads
    [Properties] (a Go map) and [Required]. *)
Record ToolParameters : Type := mkToolParameters {
  Required : list string;
  Properties : gmap string ToolProperty
}.

(** Modelled from the spec: [api.ToolFunction]. *)
Record ToolFunction : Type := mkToolFunction {
  Name : string;
  Parameters : ToolParameters
}.

(** Modelled from the spec: [api.Tool]. *)
Record Tool : Type := mkTool {
  Function : ToolFunction
}.

(** Modelled from the spec: [api.Options], of which the code reads the
    context length [NumCtx]. *)
Record Options : Type := mkOptions {
  NumCtx : Z
}.

End api.

Module llm.

(** Modelled from the spec: [llm.ImageData], the payload handed to the
    runner. *)
Record ImageData : Type := mkImageData {
  Data : list Byte.byte;
  ID : Z;
  AspectRatioID : Z
}.

End llm.

(** ** Go values of type [interface{}] that the formatter builds *)

(** [map[string]interface{}] is a [gmap string value]: key/value equality
    is all that the code and its test rely on.  [[]string] and
    [[]interface{}] are different Go types and are kept apart. *)
Inductive value : Type :=
| VString (s : string)
| VStrings (l : list string)
| VList (l : list value)
| VMap (m : gmap string value)
| VParameters (p : api.ToolParameters).

(** [json.RawMessage]. *)
Definition RawMessage : Type := list Byte.byte.

(** Go's [len] as an [int]. *)
Definition len {A : Type} (l : list A) : Z := Z.of_nat (length l).

(** ** The tool-schema formatter *)

Module Format.

(** The body of the loop of [parametersFormat]: the schema of one
    declared parameter. *)
Definition propertyFormat (param : api.ToolProperty) : gmap string value :=
  let field : gmap string value := {[ "type" := VString (api.Type_ param) ]} in
  if 0 <? len (api.Enum param)
  then <[ "enum" := VStrings (api.Enum param) ]> field
  else field.

(** [parametersFormat]: the loop ranges over a Go map and stores one
    entry per key, which is the map of [propertyFormat] over it. *)
Definition parametersFormat (parameters : api.ToolParameters)
  : gmap string value :=
  let properties : gmap string value :=
    (fun param => VMap (propertyFormat param)) <$> api.Properties parameters in
  let result : gmap string value :=
    <[ "properties" := VMap properties ]> {[ "type" := VString "object" ]} in
  if 0 <? len (api.Required parameters)
  then <[ "required" := VStrings (api.Required parameters) ]> result
  else result.

Definition toolFormat (tool : api.Tool) : gmap string value :=
  <[ "type" := VString "object" ]>
  (<[ "properties" := VMap
        (<[ "name" := VMap
              (<[ "type" := VString "string" ]>
               {[ "enum" := VStrings [api.Name (api.Function tool)] ]}) ]>
         {[ "parameters" :=
              VMap (parametersFormat (api.Parameters (api.Function tool))) ]}) ]>
   {[ "required" := VStrings ["name"; "parameters"] ]}).

Definition toolsFormat (tools : list api.Tool) : gmap string value :=
  match tools with
  | [tool] => toolFormat tool            (* len(tools) == 1 *)
  | _ => {[ "anyOf" := VList (map (fun tool => VMap (toolFormat tool)) tools) ]}
  end.

Section chatFormat.

(** [json.Marshal], of package [encoding/json]. *)
Variable json_Marshal : value -> error + RawMessage.

(** [format, _ = json.Marshal(...)]: the error is discarded, and
    [format] is then the nil slice. *)
Definition chatFormat (reqFormat : RawMessage) (tools : list api.Tool)
  : RawMessage :=
  if (0 <? len reqFormat) || (len tools =? 0)
  then reqFormat
  else match json_Marshal (VMap (toolsFormat tools)) with
       | inr format => format
       | inl _ => []
       end.

End chatFormat.

End Format.

(** ** The older [chatFormat] of [server/prompt.go] *)

(** [server/prompt.go] carries a second declaration of [chatFormat], the
    one that the formatter above replaces: it has no test on the number of
    tools, always wraps the tool schemas in [anyOf], and stores the
    parameters of a tool as they are. *)
Module Prompt.

Section chatFormat.

Variable json_Marshal : value -> error + RawMessage.

Definition chatFormat (reqFormat : RawMessage) (tools : list api.Tool)
  : RawMessage :=
  if 0 <? len reqFormat
  then reqFormat
  else
    let toolFormats :=
      map (fun tool =>
             VMap (<[ "type" := VString "object" ]>
                   (<[ "properties" := VMap
                         (<[ "name" := VMap
                               (<[ "type" := VString "string" ]>
                                {[ "enum" := VStrings [api.Name (api.Function tool)] ]}) ]>
                          {[ "parameters" :=
                               VParameters (api.Parameters (api.Function tool)) ]}) ]>
                    {[ "required" := VStrings ["name"; "parameters"] ]})))
          tools in
    let resultFormat : gmap string value := {[ "anyOf" := VList toolFormats ]} in
    match json_Marshal (VMap resultFormat) with
    | inr format => format
    | inl _ => []
    end.

End chatFormat.

End Prompt.

(** ** Outcomes of Go code *)

(** A piece of Go code ends normally with a value, returns an error, or
    panics (an index or slice bound out of range). *)
Inductive result (A : Type) : Type :=
| Ok (a : A)
| Err (e : error)
| Panic.
Arguments Ok {A} a.
Arguments Err {A} e.
Arguments Panic {A}.

#[global] Instance result_ret : MRet result := fun A a => Ok a.
#[global] Instance result_bind : MBind result := fun A B f r =>
  match r with
  | Ok a => f a
  | Err e => Err e
  | Panic => Panic
  end.

(** The [(v, err)] of a collaborator, followed by [if err != nil { return
    ..., err }]. *)
Definition try {A : Type} (r : error + A) : result A :=
  match r with
  | inl err => Err err
  | inr v => Ok v
  end.

(** [s[i]]: panics unless [0 <= i < len(s)]. *)
Definition index {A : Type} (s : list A) (i : Z) : result A :=
  if (i <? 0) || (len s <=? i) then Panic
  else match s !! Z.to_nat i with
       | Some x => Ok x
       | None => Panic
       end.

(** [s[i:]]: panics unless [0 <= i <= len(s)]. *)
Definition slice_from {A : Type} (s : list A) (i : Z) : result (list A) :=
  if (i <? 0) || (len s <? i) then Panic
  else Ok (drop (Z.to_nat i) s).

(** ** Package [strings] and [fmt], as far as [chatPrompt] uses them *)

(** [strings.Contains(s, substr)]. *)
Definition strings_Contains (s substr : string) : bool :=
  match String.index 0 substr s with
  | Some _ => true
  | None => false
  end.

(** [strings.Replace(s, old, new, 1)] for a non-empty [old]: the first
    occurrence of [old], if there is one, is replaced. *)
Definition strings_Replace1 (s old new : string) : string :=
  match String.index 0 old s with
  | Some k =>
      String.substring 0 k s +:+ new +:+
      String.substring (k + String.length old)
                       (String.length s - (k + String.length old)) s
  | None => s
  end.

(** [fmt.Sprintf("[img-%d]", id)]. *)
Definition imgTag_of (id : Z) : string :=
  "[img-" +:+ NilZero.string_of_int (Z.to_int id) +:+ "]".

(** ** The model and its collaborators *)

Module template.

(** [template.Values], the input of [Template.Execute]. *)
Record Values : Type := mkValues {
  Messages : list api.Message;
  Tools : list api.Tool
}.

End template.

(** [Model], of which [chatPrompt] reads the template, the projector
    paths (a slice that may be nil: [None]) and the model families.
    [Template] stands for [m.Template.Execute] writing into a fresh
    buffer: it yields the rendered text or an error. *)
Record Model : Type := mkModel {
  Template : template.Values -> error + string;
  ProjectorPaths : option (list string);
  Config_ModelFamilies : list string
}.

(** [tokenizeFunc]; the context argument only carries cancellation, which
    shows as an error. *)
Definition tokenizeFunc : Type := string -> error + list Z.

(** A value of type [any] found in the options map of
    [mllama.Preprocess]: an [int] or something else. *)
Inductive any : Type :=
| AnyInt (z : Z)
| AnyOther.

Definition checkMllamaModelFamily (m : Model) : bool :=
  existsb (fun arch => String.eqb arch "mllama") (Config_ModelFamilies m).

Definition isSystem (msg : api.Message) : Prop := api.Role msg = "system".

#[global] Instance isSystem_dec msg : Decision (isSystem msg).
Proof. unfold isSystem. apply _. Defined.

(** ** [chatPrompt] *)

Section chatPrompt.

(** The tensor that [mllama.Preprocess] computes. *)
Variable tensor : Type.

(** [mllama.Preprocess(bytes.NewReader(i))]: [(data, opts, err)]. *)
Variable mllama_Preprocess : api.ImageData -> error + (tensor * gmap string any).

(** [binary.Write(buf, binary.LittleEndian, data)] into a fresh buffer:
    the bytes written, or an error. *)
Variable binary_Write : tensor -> error + list Byte.byte.

Section body.

Variable m : Model.
Variable tokenize : tokenizeFunc.
Variable opts : api.Options.
Variable msgs : list api.Message.
Variable tools : list api.Tool.

Definition isMllama : bool := checkMllamaModelFamily m.

Definition imageNumTokens : Z := if isMllama then 1 else 768.

(** [for _, m := range msgs[i:] { ctxLen += imageNumTokens * len(m.Images) }] *)
Definition addImageTokens (window : list api.Message) (ctxLen : Z) : Z :=
  fold_left (fun ctxLen m' => ctxLen + imageNumTokens * len (api.Images m'))
            window ctxLen.

(** The first loop, [for i := n; i >= 0; i--], with its two variables
    [n] and [system].  [scan k n system] runs it from [i = k - 1]
    down to [0]: [continue] and the end of the body go on with
    [k - 1], [break] and [i < 0] leave the loop with the current [n]
    and [system]. *)
Fixpoint scan (k : nat) (n : Z) (system : list api.Message)
  : result (Z * list api.Message) :=
  match k with
  | O => Ok (n, system)
  | S k' =>
      let i := Z.of_nat k' in
      msg ← index msgs i;
      if isMllama && (1 <? len (api.Images msg))
      then Err errTooManyImages
      else if i =? n
      then scan k' n system
      else
        (* for j := range i { if msgs[j].Role == "system" ... } *)
        let system := filter isSystem (take k' msgs) in
        window ← slice_from msgs i;
        b ← try (Template m (template.mkValues (system ++ window) tools));
        s ← try (tokenize b);
        let ctxLen := len s in
        let ctxLen :=
          match ProjectorPaths m with
          | Some _ => addImageTokens window ctxLen
          | None => ctxLen
          end in
        if ctxLen >? api.NumCtx opts
        then Ok (n, system)
        else scan k' i system
  end.

(** The body of [for _, i := range msg.Images], on the variables
    [prefix], [imgPrompt], [prompt] and [images]. *)
Definition tagImage (st : string * string * string * list llm.ImageData)
    (i : api.ImageData)
  : result (string * string * string * list llm.ImageData) :=
  let '(prefix, imgPrompt, prompt, images) := st in
  '(imgData, imgPrompt) ←
    (if isMllama
     then
       '(data, popts) ← try (mllama_Preprocess i);
       buf ← try (binary_Write data);
       match popts !! "aspectRatioIndex" with
       | Some (AnyInt ar) =>
           Ok (llm.mkImageData buf (len images) ar, "<|image|>")
       | _ => Err errMissingAspectRatio
       end
     else Ok (llm.mkImageData i (len images) 0, imgPrompt));
  let imgTag := imgTag_of (llm.ID imgData) in
  let '(prefix, prompt) :=
    if negb (strings_Contains prompt "[img]")
    then (prefix +:+ imgTag, prompt)
    else (prefix, strings_Replace1 prompt "[img]" imgTag) in
  Ok (prefix, imgPrompt, prompt, images ++ [imgData]).

Fixpoint tagImages (imgs : list api.ImageData)
    (st : string * string * string * list llm.ImageData)
  : result (string * string * string * list llm.ImageData) :=
  match imgs with
  | [] => Ok st
  | i :: imgs' => st' ← tagImage st i; tagImages imgs' st'
  end.

(** The second loop, [for cnt, msg := range msgs[currMsgIdx:]]: it
    overwrites the content of each message of the window and collects
    the image payloads.  The result is the window as it stands in
    [msgs] after the loop, and [images]. *)
Fixpoint tagMessages (window : list api.Message) (images : list llm.ImageData)
  : result (list api.Message * list llm.ImageData) :=
  match window with
  | [] => Ok ([], images)
  | msg :: window' =>
      '(prefix, imgPrompt, prompt, images) ←
        tagImages (api.Images msg) ("", "", api.Content msg, images);
      let msg' := api.mkMessage (api.Role msg)
                                (prefix +:+ imgPrompt +:+ prompt)
                                (api.Images msg) in
      '(rest, images) ← tagMessages window' images;
      Ok (msg' :: rest, images)
  end.

(** The truncation window that the first loop selects: the index
    [currMsgIdx] and the carried system messages. *)
Definition truncate : result (Z * list api.Message) :=
  let n := len msgs - 1 in
  scan (Z.to_nat (n + 1)) n [].

Definition chatPrompt_body : result (string * list llm.ImageData) :=
  '(n, system) ← truncate;
  let currMsgIdx := n in
  window ← slice_from msgs currMsgIdx;
  '(window, images) ← tagMessages window [];
  b ← try (Template m (template.mkValues (system ++ window) tools));
  Ok (b, images).

End body.

(** What a call of [chatPrompt] does: it returns its three results, or
    it panics. *)
Inductive outcome : Type :=
| Returns (prompt : string) (images : list llm.ImageData) (err : option error)
| Panics.

(** [chatPrompt]; every error is returned as [return "", nil, err]. *)
Definition chatPrompt (m : Model) (tokenize : tokenizeFunc)
    (opts : api.Options) (msgs : list api.Message) (tools : list api.Tool)
  : outcome :=
  match chatPrompt_body m tokenize opts msgs tools with
  | Ok (prompt, images) => Returns prompt images None
  | Err err => Returns "" [] (Some err)
  | Panic => Panics
  end.

End chatPrompt.

(** ** Concrete collaborators, for running the code on examples *)

Module Fixtures.

(** A template that writes every message as [role:content;]. *)
Definition render (v : template.Values) : error + string :=
  inr (fold_right (fun msg acc =>
                     api.Role msg +:+ ":" +:+ api.Content msg +:+ ";" +:+ acc)
                  "" (template.Messages v)).

(** A tokenizer with one token per byte. *)
Definition tokenize : tokenizeFunc :=
  fun s => inr (map (fun c => Z.of_nat (nat_of_ascii c)) (list_ascii_of_string s)).

(** An image encoder that keeps the bytes and reports aspect ratio 1. *)
Definition preprocess (i : api.ImageData)
  : error + (list Byte.byte * gmap string any) :=
  inr (i, {[ "aspectRatioIndex" := AnyInt 1 ]}).

Definition write (data : list Byte.byte) : error + list Byte.byte := inr data.

Definition clip : Model := mkModel render (Some ["vision"]) ["clip"].
Definition textonly : Model := mkModel render None ["llama"].
Definition mllama : Model := mkModel render (Some ["vision"]) ["mllama"].

Definition img1 : api.ImageData := [Byte.x01].
Definition img2 : api.ImageData := [Byte.x02].
Definition img3 : api.ImageData := [Byte.x03].

Definition user (content : string) (images : list api.ImageData) : api.Message :=
  api.mkMessage "user" content images.
Definition system (content : string) : api.Message :=
  api.mkMessage "system" content [].

Definition run (m : Model) (tok : tokenizeFunc) (numCtx : Z)
    (msgs : list api.Message) : outcome :=
  chatPrompt (list Byte.byte) preprocess write m tok (api.mkOptions numCtx) msgs [].

Definition window (m : Model) (tok : tokenizeFunc) (numCtx : Z)
    (msgs : list api.Message) : result (Z * list api.Message) :=
  truncate m tok (api.mkOptions numCtx) msgs [].

(** A JSON writer in the manner of [json.Marshal], for values whose
    strings need no escaping: the keys of an object are written in sorted
    order.  It gives up on values nested deeper than [fuel] and on raw
    parameter structs. *)
Definition quote (s : string) : string :=
  String (ascii_of_nat 34) s +:+ String (ascii_of_nat 34) EmptyString.

Fixpoint join (sep : string) (l : list string) : string :=
  match l with
  | [] => EmptyString
  | [x] => x
  | x :: l' => x +:+ sep +:+ join sep l'
  end.

Fixpoint insert_sorted (kv : string * string) (l : list (string * string))
  : list (string * string) :=
  match l with
  | [] => [kv]
  | kv' :: l' =>
      if String.leb (fst kv) (fst kv') then kv :: l
      else kv' :: insert_sorted kv l'
  end.

Fixpoint write_value (fuel : nat) (v : value) : option string :=
  match fuel with
  | O => None
  | S fuel' =>
      match v with
      | VString s => Some (quote s)
      | VStrings l => Some ("[" +:+ join "," (map quote l) +:+ "]")
      | VList l =>
          items ← mapM (write_value fuel') l;
          Some ("[" +:+ join "," items +:+ "]")
      | VMap o =>
          fields ← mapM (fun kv => s ← write_value fuel' (snd kv);
                                   Some (fst kv, s))
                        (map_to_list o);
          Some ("{" +:+
                join "," (map (fun kv => quote (fst kv) +:+ ":" +:+ snd kv)
                              (fold_right insert_sorted [] fields)) +:+
                "}")
      | VParameters _ => None
      end
  end.

Definition marshal (v : value) : error + RawMessage :=
  match write_value 16 v with
  | Some s => inr (list_byte_of_string s)
  | None => inl (errExternal "json: unsupported value")
  end.

(** The tool of the specification's round-trip example. *)
Definition get_current_weather : api.Tool :=
  api.mkTool
    (api.mkToolFunction "get_current_weather"
       (api.mkToolParameters ["location"]
          {[ "location" := api.mkToolProperty "string" [] ]})).

(** The schema that the specification gives for it. *)
Definition get_current_weather_schema : gmap string value :=
  <[ "type" := VString "object" ]>
  (<[ "properties" := VMap
        (<[ "name" := VMap
              (<[ "type" := VString "string" ]>
               {[ "enum" := VStrings ["get_current_weather"] ]}) ]>
         {[ "parameters" := VMap
              (<[ "type" := VString "object" ]>
               (<[ "properties" := VMap
                     {[ "location" := VMap {[ "type" := VString "string" ]} ]} ]>
                {[ "required" := VStrings ["location"] ]})) ]}) ]>
   {[ "required" := VStrings ["name"; "parameters"] ]}).

(** An image encoder that reports no aspect ratio. *)
Definition preprocess_no_ratio (i : api.ImageData)
  : error + (list Byte.byte * gmap string any) :=
  inr (i, ∅).

(** A tokenizer that fails. *)
Definition tokenize_fails : tokenizeFunc :=
  fun _ => inl (errExternal "tokenize").

(** Example conversations. *)

Definition two_turns : list api.Message :=
  [user "a" []; user "b" []].

Definition three_turns : list api.Message :=
  [user "x" [img1; img2]; user "b" []; user "c" []].

Definition image_then_text : list api.Message :=
  [user "a" [img1]; user "b" []].

Definition image_each_turn : list api.Message :=
  [user "a" [img1]; user "b" [img2]].

Definition three_images : list api.Message :=
  [user "a" [img1]; user "b [img]" [img2; img3]].

Definition two_systems : list api.Message :=
  [system "T"; system "S"; user "b" []].

Definition crowded_old_turn : list api.Message :=
  [system "T"; user "a" [img1; img2]; system "S"; user "b" [img3]].

Definition one_image_turn : list api.Message :=
  [user "b" [img3]].

Definition placeholder_turn : api.Message :=
  user "see [img] now" [img1].

Definition text_then_image : list api.Message :=
  [user "a" []; user "b" [img3]].

End Fixtures.


(** ** The truncation window in the words of the specification *)

Section Window.

Variable m : Model.
Variable tokenize : tokenizeFunc.
Variable msgs : list api.Message.
Variable tools : list api.Tool.

(** The system messages that occur strictly before index [i]. *)
Definition carried (i : nat) : list api.Message :=
  filter isSystem (take i msgs).

(** The candidate window at [i]: the carried system messages followed
    by [msgs[i:]]. *)
Definition candidate (i : nat) : list api.Message :=
  carried i ++ drop i msgs.

(** The number of images in a list of messages. *)
Definition imageCount (l : list api.Message) : Z :=
  fold_right (fun msg acc => len (api.Images msg) + acc) 0 l.

(** The rendered token count of the candidate window at [i], when both
    the template and the tokenizer succeed on it. *)
Definition renderedTokens (i : nat) (count : Z) : Prop :=
  exists b s,
    Template m (template.mkValues (candidate i) tools) = inr b /\
    tokenize b = inr s /\ count = len s.

(** The per-image token cost of the model family. *)
Definition imagesTokenCost : Z := imageNumTokens m.

(** What the images of [msgs[i:]] add to the context length: nothing
    for a model without projector. *)
Definition imageTokens (i : nat) : Z :=
  match ProjectorPaths m with
  | Some _ => imagesTokenCost * imageCount (drop i msgs)
  | None => 0
  end.

(** The candidate window at [i] renders, tokenizes and fits budget [B]. *)
Definition fits (B : Z) (i : nat) : Prop :=
  exists count, renderedTokens i count /\ count + imageTokens i <= B.

(** The candidate window at [i] renders, tokenizes and exceeds [B]. *)
Definition exceeds (B : Z) (i : nat) : Prop :=
  exists count, renderedTokens i count /\ count + imageTokens i > B.

(** The budget condition as the specification words it: the image cost
    is charged for every image of [msgs[i:]]. *)
Definition spec_fits (B : Z) (i : nat) : Prop :=
  exists count,
    renderedTokens i count /\
    count + imagesTokenCost * imageCount (drop i msgs) <= B.

(** A message that the packed-embedding renderer cannot take. *)
Definition tooManyImages (msg : api.Message) : Prop :=
  1 < len (api.Images msg).

End Window.

(** ** Image payload ids *)

(** The payload ids are the positions in the sequence. *)
Definition sequential (images : list llm.ImageData) : Prop :=
  forall (k : nat) (d : llm.ImageData),
    images !! k = Some d -> llm.ID d = Z.of_nat k.

(** ** Tags and payloads of a message *)

(** The tags of [n] images numbered from [first], one after the other. *)
Fixpoint imgTags (first : Z) (n : nat) : string :=
  match n with
  | O => EmptyString
  | S n' => imgTag_of first +:+ imgTags (first + 1) n'
  end.

(** The payloads of raw images numbered from [first], as the generic
    family builds them. *)
Fixpoint rawPayloads (first : Z) (imgs : list api.ImageData)
  : list llm.ImageData :=
  match imgs with
  | [] => []
  | i :: imgs' => llm.mkImageData i first 0 :: rawPayloads (first + 1) imgs'
  end.

(** The number of system messages in a list. *)
Definition systemCount (l : list api.Message) : nat :=
  length (filter isSystem l).

(** Under the packed family, no message of [msgs] from index [lo] on has
    more images than the family takes. *)
Definition imagesAccepted (m : Model) (msgs : list api.Message) (lo : nat)
  : Prop :=
  isMllama m = true ->
  forall (j : nat) (msg : api.Message),
    (lo <= j)%nat -> msgs !! j = Some msg -> ~ tooManyImages msg.

(** The payload [d] is what the packed family makes of the image [i]:
    the bytes written from the tensor of [mllama.Preprocess], with the
    aspect ratio index that it reports. *)
Definition encodedBy {tensor : Type}
    (mllama_Preprocess : api.ImageData -> error + (tensor * gmap string any))
    (binary_Write : tensor -> error + list Byte.byte)
    (i : api.ImageData) (d : llm.ImageData) : Prop :=
  exists data popts,
    mllama_Preprocess i = inr (data, popts) /\
    binary_Write data = inr (llm.Data d) /\
    popts !! "aspectRatioIndex" = Some (AnyInt (llm.AspectRatioID d)).

(** ** Proof automation *)

(** The keys of a map built by explicit insertions. *)
Ltac map_keys := rewrite ?dom_insert_L, ?dom_singleton_L; set_solver.

(** * Properties *)

(** ** Slices and counters *)

Lemma len_nonneg {A : Type} (l : list A) : 0 <= len l.
Proof. unfold len. lia. Qed.

Lemma len_app {A : Type} (l1 l2 : list A) : len (l1 ++ l2) = len l1 + len l2.
Proof. unfold len. rewrite length_app. lia. Qed.

Lemma index_in_range {A : Type} (s : list A) (k : nat) :
  (k < length s)%nat -> exists x, index s (Z.of_nat k) = Ok x /\ s !! k = Some x.
Proof.
  intros Hk. unfold index, len.
  destruct (Z.ltb_spec (Z.of_nat k) 0) as [?|_]; [lia|].
  destruct (Z.leb_spec (Z.of_nat (length s)) (Z.of_nat k)) as [?|_]; [lia|].
  simpl. rewrite Nat2Z.id.
  destruct (lookup_lt_is_Some_2 s k Hk) as [x Hx].
  exists x. by rewrite Hx.
Qed.

Lemma slice_from_in_range {A : Type} (s : list A) (k : nat) :
  (k <= length s)%nat -> slice_from s (Z.of_nat k) = Ok (drop k s).
Proof.
  intros Hk. unfold slice_from, len.
  destruct (Z.ltb_spec (Z.of_nat k) 0) as [?|_]; [lia|].
  destruct (Z.ltb_spec (Z.of_nat (length s)) (Z.of_nat k)) as [?|_]; [lia|].
  simpl. by rewrite Nat2Z.id.
Qed.

Lemma slice_from_negative {A : Type} (s : list A) (i : Z) :
  i < 0 -> slice_from s i = Panic.
Proof.
  intros Hi. unfold slice_from.
  destruct (Z.ltb_spec i 0) as [_|?]; [reflexivity|lia].
Qed.

Lemma imageCount_nonneg (l : list api.Message) : 0 <= imageCount l.
Proof.
  induction l as [|msg l IH]; simpl; [lia|].
  pose proof (len_nonneg (api.Images msg)). lia.
Qed.

Lemma addImageTokens_imageCount m (window : list api.Message) (ctxLen : Z) :
  addImageTokens m window ctxLen = ctxLen + imageNumTokens m * imageCount window.
Proof.
  unfold addImageTokens. revert ctxLen.
  induction window as [|msg window IH]; intros ctxLen; simpl; [lia|].
  rewrite IH. lia.
Qed.

(** ** The first loop *)

Section ScanFacts.

Variable m : Model.
Variable tokenize : tokenizeFunc.
Variable opts : api.Options.
Variable msgs : list api.Message.
Variable tools : list api.Tool.

Local Abbreviation scan_from := (scan m tokenize opts msgs tools).
Local Abbreviation fits := (fits m tokenize msgs tools (api.NumCtx opts)).
Local Abbreviation exceeds := (exceeds m tokenize msgs tools (api.NumCtx opts)).
Local Abbreviation carried := (carried msgs).

(** One pass of the loop body at [i = k], away from the first pass. *)
Lemma scan_step (k : nat) (system : list api.Message) :
  (k < length msgs)%nat ->
  scan_from (S k) (Z.of_nat (S k)) system =
    (msg ← index msgs (Z.of_nat k);
     if isMllama m && (1 <? len (api.Images msg))
     then Err errTooManyImages
     else
       b ← try (Template m (template.mkValues (candidate msgs k) tools));
       s ← try (tokenize b);
       if len s + imageTokens m msgs k >? api.NumCtx opts
       then Ok (Z.of_nat (S k), carried k)
       else scan_from k (Z.of_nat k) (carried k)).
Proof.
  intros Hk. simpl scan.
  destruct (index msgs (Z.of_nat k)) as [msg| |]; simpl; try reflexivity.
  destruct (isMllama m && (1 <? len (api.Images msg))); [reflexivity|].
  destruct (Z.eqb_spec (Z.of_nat k) (Z.of_nat (S k))) as [?|_]; [lia|].
  rewrite slice_from_in_range by lia. simpl.
  unfold candidate.
  destruct (Template m _) as [e|b]; simpl; [reflexivity|].
  destruct (tokenize b) as [e|s]; simpl; [reflexivity|].
  unfold imageTokens, imagesTokenCost.
  destruct (ProjectorPaths m); [rewrite addImageTokens_imageCount|rewrite Z.add_0_r];
    reflexivity.
Qed.

(** The passes of the loop after the first one, from [i = k - 1] down:
    the result is an index [w <= k] such that every candidate in
    [w .. k-1] fits, the candidate at [w - 1] (if there is one) exceeds
    the budget, and [system] is what the last pass that ran computed. *)
Lemma scan_steady (k : nat) :
  forall system n' sys',
    (k <= length msgs)%nat ->
    scan_from k (Z.of_nat k) system = Ok (n', sys') ->
    exists w : nat,
      n' = Z.of_nat w /\ (w <= k)%nat /\
      (forall j, (w <= j < k)%nat -> fits j) /\
      ((0 < w)%nat -> exceeds (w - 1)) /\
      sys' = match k with O => system | S _ => carried (w - 1) end /\
      (forall j msg, (w - 1 <= j < k)%nat -> msgs !! j = Some msg ->
                     isMllama m = true -> ~ tooManyImages msg).
Proof.
  induction k as [|k IH]; intros system n' sys' Hk Hscan.
  - simpl in Hscan. injection Hscan as <- <-.
    exists 0%nat. split_and!; try reflexivity; intros; lia.
  - rewrite scan_step in Hscan by lia.
    destruct (index_in_range msgs k) as (msg & Hidx & Hmsg); [lia|].
    rewrite Hidx in Hscan. simpl in Hscan.
    destruct (isMllama m && (1 <? len (api.Images msg))) eqn:Hcheck;
      [discriminate|].
    destruct (Template m _) as [e|b] eqn:Hb; simpl in Hscan; [discriminate|].
    destruct (tokenize b) as [e|s] eqn:Hs; simpl in Hscan; [discriminate|].
    assert (Hmsgk : forall msg', msgs !! k = Some msg' ->
                      isMllama m = true -> ~ tooManyImages msg').
    { intros msg' Hmsg' Hml Hmany. unfold tooManyImages in Hmany.
      assert (msg' = msg) as -> by congruence.
      rewrite Hml in Hcheck. simpl in Hcheck.
      apply Z.ltb_ge in Hcheck. lia. }
    destruct (Z.gtb_spec (len s + imageTokens m msgs k) (api.NumCtx opts))
      as [Hgt|Hle].
    + injection Hscan as <- <-.
      exists (S k). replace (S k - 1)%nat with k by lia.
      split_and!; [reflexivity|lia| | | |].
      * intros j Hj. lia.
      * intros _. exists (len s). split; [|lia]. by exists b, s.
      * reflexivity.
      * intros j msg' Hj Hmsg'. assert (j = k) as -> by lia. by apply Hmsgk.
    + apply IH in Hscan; [|lia].
      destruct Hscan as (w & -> & Hw & Hfits & Hexc & Hsys & Hml).
      exists w. split_and!; [reflexivity|lia| |assumption| |].
      * intros j Hj. destruct (decide (j = k)) as [->|Hne].
        -- exists (len s). split; [|lia]. by exists b, s.
        -- apply Hfits. lia.
      * rewrite Hsys. destruct k as [|k']; [|reflexivity].
        by replace w with 0%nat by lia.
      * intros j msg' Hj Hmsg'. destruct (decide (j = k)) as [->|Hne].
        -- by apply Hmsgk.
        -- destruct k as [|k']; [lia|]. apply (Hml j); [lia|assumption].
Qed.

(** The whole loop, on a non-empty list: the first pass only checks the
    last message and goes on. *)
Lemma truncate_first_pass :
  msgs <> [] ->
  truncate m tokenize opts msgs tools =
    (msg ← index msgs (len msgs - 1);
     if isMllama m && (1 <? len (api.Images msg))
     then Err errTooManyImages
     else scan_from (length msgs - 1) (Z.of_nat (length msgs - 1)) []).
Proof.
  intros Hne. unfold truncate.
  destruct msgs as [|m0 l] eqn:Hl; [done|]. rewrite <- Hl.
  assert (Hlen : length msgs = S (length l)) by (by rewrite Hl).
  replace (Z.to_nat (len msgs - 1 + 1)) with (S (length l))
    by (unfold len; lia).
  replace (length msgs - 1)%nat with (length l) by lia.
  replace (len msgs - 1) with (Z.of_nat (length l)) by (unfold len; lia).
  simpl scan.
  destruct (index msgs (Z.of_nat (length l))) as [msg| |]; simpl; try reflexivity.
  destruct (isMllama m && (1 <? len (api.Images msg))); [reflexivity|].
  by rewrite Z.eqb_refl.
Qed.

(** What [truncate] returns on a non-empty list. *)
Lemma truncate_window (n' : Z) (sys' : list api.Message) :
  msgs <> [] ->
  truncate m tokenize opts msgs tools = Ok (n', sys') ->
  exists w : nat,
    n' = Z.of_nat w /\ (w < length msgs)%nat /\
    (forall j, (w <= j < length msgs - 1)%nat -> fits j) /\
    ((0 < w)%nat -> exceeds (w - 1)) /\
    sys' = carried (w - 1) /\
    (forall j msg, (w - 1 <= j < length msgs)%nat -> msgs !! j = Some msg ->
                   isMllama m = true -> ~ tooManyImages msg).
Proof.
  intros Hne Htr. rewrite truncate_first_pass in Htr by assumption.
  assert (Hlen : (0 < length msgs)%nat).
  { destruct msgs; [done|simpl; lia]. }
  destruct (index_in_range msgs (length msgs - 1)) as (msg & Hidx & Hmsg); [lia|].
  replace (Z.of_nat (length msgs - 1)) with (len msgs - 1) in Hidx
    by (unfold len; lia).
  rewrite Hidx in Htr. simpl in Htr.
  destruct (isMllama m && (1 <? len (api.Images msg))) eqn:Hcheck;
    [discriminate|].
  apply scan_steady in Htr; [|lia].
  destruct Htr as (w & -> & Hw & Hfits & Hexc & Hsys & Hml).
  exists w. split_and!; [reflexivity|lia| |assumption| |].
  - intros j Hj. apply Hfits. lia.
  - rewrite Hsys. destruct (length msgs - 1)%nat eqn:Hk; [|reflexivity].
    replace w with 0%nat by lia. reflexivity.
  - intros j msg' Hj Hmsg' Hmll Hmany.
    destruct (decide (j = length msgs - 1)%nat) as [->|Hne'].
    + assert (msg' = msg) as -> by congruence.
      rewrite Hmll in Hcheck. simpl in Hcheck. apply Z.ltb_ge in Hcheck.
      unfold tooManyImages in Hmany. lia.
    + apply (Hml j msg'); [lia|assumption|assumption|assumption].
Qed.

(** No pass of the loop indexes [msgs] out of range. *)
Lemma scan_no_panic (k : nat) :
  forall n system, (k <= length msgs)%nat -> scan_from k n system <> Panic.
Proof.
  induction k as [|k IH]; intros n system Hk; [done|].
  simpl scan.
  destruct (index_in_range msgs k) as (msg & Hidx & _); [lia|].
  rewrite Hidx. simpl.
  destruct (isMllama m && (1 <? len (api.Images msg))); [done|].
  destruct (Z.of_nat k =? n); [apply IH; lia|].
  rewrite slice_from_in_range by lia. simpl.
  destruct (Template m _) as [e|b]; simpl; [done|].
  destruct (tokenize b) as [e|s]; simpl; [done|].
  destruct (_ >? _); [done|apply IH; lia].
Qed.

Lemma truncate_no_panic :
  truncate m tokenize opts msgs tools <> Panic.
Proof.
  unfold truncate. apply scan_no_panic. unfold len. lia.
Qed.

(** When the scan comes down to a message with too many images, under
    the packed family, it ends with [errTooManyImages]. *)
Lemma scan_reaches_too_many (k : nat) (msg : api.Message) :
  isMllama m = true -> msgs !! k = Some msg -> tooManyImages msg ->
  forall (j : nat) system,
    (k < j <= length msgs)%nat ->
    (forall i, (k < i < j)%nat -> fits i) ->
    scan_from j (Z.of_nat j) system = Err errTooManyImages.
Proof.
  intros Hml Hmsg Hmany. induction j as [|j IH]; intros system Hj Hfits; [lia|].
  rewrite scan_step by lia.
  destruct (index_in_range msgs j) as (msg' & Hidx & Hmsg'); [lia|].
  rewrite Hidx. simpl. rewrite Hml. simpl.
  destruct (Z.ltb_spec 1 (len (api.Images msg'))) as [_|Hfew]; [reflexivity|].
  destruct (decide (j = k)) as [->|Hne].
  { assert (msg' = msg) as -> by congruence. unfold tooManyImages in Hmany. lia. }
  destruct (Hfits j) as (count & (b & s & Hb & Hs & ->) & Hle); [lia|].
  rewrite Hb. simpl. rewrite Hs. simpl.
  destruct (Z.gtb_spec (len s + imageTokens m msgs j) (api.NumCtx opts))
    as [Hgt|_]; [lia|].
  apply IH; [lia|]. intros i Hi. apply Hfits. lia.
Qed.

Lemma truncate_too_many (k : nat) (msg : api.Message) :
  isMllama m = true -> msgs !! k = Some msg -> tooManyImages msg ->
  (forall i, (k < i < length msgs - 1)%nat -> fits i) ->
  truncate m tokenize opts msgs tools = Err errTooManyImages.
Proof.
  intros Hml Hmsg Hmany Hfits.
  assert (Hk : (k < length msgs)%nat) by (by eapply lookup_lt_Some).
  rewrite truncate_first_pass by (intros Hnil; rewrite Hnil in Hk; simpl in Hk; lia).
  destruct (index_in_range msgs (length msgs - 1)) as (msg' & Hidx & Hmsg'); [lia|].
  replace (Z.of_nat (length msgs - 1)) with (len msgs - 1) in Hidx
    by (unfold len; lia).
  rewrite Hidx. simpl. rewrite Hml. simpl.
  destruct (Z.ltb_spec 1 (len (api.Images msg'))) as [_|Hfew]; [reflexivity|].
  destruct (decide (k = length msgs - 1)%nat) as [->|Hne].
  { assert (msg' = msg) as -> by congruence. unfold tooManyImages in Hmany. lia. }
  apply (scan_reaches_too_many k msg); try assumption. lia.
Qed.

End ScanFacts.

(** On the empty list the loop does not run and leaves [n = -1]. *)
Lemma truncate_nil m tokenize opts tools :
  truncate m tokenize opts [] tools = Ok (-1, []).
Proof. reflexivity. Qed.

(** ** Budgets *)

Section BudgetFacts.

Variable m : Model.
Variable tokenize : tokenizeFunc.
Variable msgs : list api.Message.
Variable tools : list api.Tool.

Local Abbreviation fitsB := (fits m tokenize msgs tools).
Local Abbreviation exceedsB := (exceeds m tokenize msgs tools).
Local Abbreviation spec_fitsB := (spec_fits m tokenize msgs tools).

(** Template and tokenizer are functions: a candidate has one token
    count. *)
Lemma renderedTokens_functional (i : nat) (c1 c2 : Z) :
  renderedTokens m tokenize msgs tools i c1 ->
  renderedTokens m tokenize msgs tools i c2 -> c1 = c2.
Proof.
  intros (b1 & s1 & Hb1 & Hs1 & ->) (b2 & s2 & Hb2 & Hs2 & ->).
  rewrite Hb1 in Hb2. injection Hb2 as <-.
  rewrite Hs1 in Hs2. by injection Hs2 as <-.
Qed.

Lemma fits_not_exceeds (B : Z) (i : nat) : fitsB B i -> exceedsB B i -> False.
Proof.
  intros (c1 & Hc1 & Hle) (c2 & Hc2 & Hgt).
  rewrite (renderedTokens_functional i c1 c2 Hc1 Hc2) in Hle. lia.
Qed.

Lemma fits_mono (B B' : Z) (i : nat) : B <= B' -> fitsB B i -> fitsB B' i.
Proof. intros HB (c & Hc & Hle). exists c. split; [assumption|lia]. Qed.

(** With a projector the code charges what the specification says. *)
Lemma fits_spec_fits (B : Z) (i : nat) :
  is_Some (ProjectorPaths m) -> fitsB B i -> spec_fitsB B i.
Proof.
  intros [paths Hp] (c & Hc & Hle). exists c. split; [assumption|].
  unfold imageTokens in Hle. by rewrite Hp in Hle.
Qed.

(** Two indices that both stand at the boundary of the backward scan
    are the same index. *)
Lemma boundary_unique (B : Z) (limit w1 w2 : nat) :
  (w1 <= limit)%nat -> (w2 <= limit)%nat ->
  (forall j, (w1 <= j < limit)%nat -> fitsB B j) ->
  ((0 < w1)%nat -> exceedsB B (w1 - 1)) ->
  (forall j, (w2 <= j < limit)%nat -> fitsB B j) ->
  ((0 < w2)%nat -> exceedsB B (w2 - 1)) ->
  w1 = w2.
Proof.
  intros H1 H2 Hf1 He1 Hf2 He2.
  destruct (lt_eq_lt_dec w1 w2) as [[Hlt|Heq]|Hgt]; [|assumption|].
  - exfalso. apply (fits_not_exceeds B (w2 - 1)); [apply Hf1|apply He2]; lia.
  - exfalso. apply (fits_not_exceeds B (w1 - 1)); [apply Hf2|apply He1]; lia.
Qed.

(** C2, amended.  On a non-empty list the selected index [w] is the
    boundary of the backward scan from [N-1]: every candidate from [w]
    up to [N-2] renders, tokenizes and fits the budget (so the window
    itself does when [w < N-1]), the candidate at [w-1], if there is
    one, exceeds it, and [w] is the only index with these two properties.
    The token count charged is that of the rendered candidate plus, for
    a model with projector only, the image cost times the number of
    images of [msgs[i:]]; for such a model this is the specification's
    budget condition. *)
Theorem truncate_boundary opts n' sys' :
  msgs <> [] ->
  truncate m tokenize opts msgs tools = Ok (n', sys') ->
  exists w : nat,
    n' = Z.of_nat w /\ (w <= length msgs - 1)%nat /\
    ((w < length msgs - 1)%nat -> fitsB (api.NumCtx opts) w) /\
    (forall j, (w <= j < length msgs - 1)%nat -> fitsB (api.NumCtx opts) j) /\
    ((0 < w)%nat -> exceedsB (api.NumCtx opts) (w - 1)) /\
    (forall w2 : nat,
       (w2 <= length msgs - 1)%nat ->
       (forall j, (w2 <= j < length msgs - 1)%nat -> fitsB (api.NumCtx opts) j) ->
       ((0 < w2)%nat -> exceedsB (api.NumCtx opts) (w2 - 1)) ->
       w2 = w) /\
    (is_Some (ProjectorPaths m) ->
     forall j, (w <= j < length msgs - 1)%nat -> spec_fitsB (api.NumCtx opts) j).
Proof.
  intros Hne Htr.
  destruct (truncate_window _ _ _ _ _ _ _ Hne Htr)
    as (w & -> & Hw & Hfits & Hexc & _ & _).
  exists w. split_and!; [reflexivity|lia| |assumption|assumption| |].
  - intros Hlt. apply Hfits. lia.
  - intros w2 Hw2 Hf2 He2.
    apply (boundary_unique (api.NumCtx opts) (length msgs - 1)); (assumption || lia).
  - intros Hp j Hj. by apply fits_spec_fits, Hfits.
Qed.

(** A scan that ends normally under a budget ends normally under every
    smaller one: it makes the same calls and stops no later. *)
Lemma scan_smaller_budget opts opts' (k : nat) :
  api.NumCtx opts <= api.NumCtx opts' ->
  forall n system r',
    scan m tokenize opts' msgs tools k n system = Ok r' ->
    exists r, scan m tokenize opts msgs tools k n system = Ok r.
Proof.
  intros HB. induction k as [|k IH]; intros n system r' H'.
  - simpl. by eexists.
  - simpl scan in *.
    destruct (index msgs (Z.of_nat k)) as [msg| |]; simpl in *; try done.
    destruct (isMllama m && (1 <? len (api.Images msg))); [done|].
    destruct (Z.of_nat k =? n); [by eapply IH|].
    destruct (slice_from msgs (Z.of_nat k)) as [window| |]; simpl in *; try done.
    destruct (Template m _) as [e|b]; simpl in *; [done|].
    destruct (tokenize b) as [e|s]; simpl in *; [done|].
    set (ctxLen := match ProjectorPaths m with
                   | Some _ => addImageTokens m window (len s)
                   | None => len s
                   end) in *.
    destruct (Z.gtb_spec ctxLen (api.NumCtx opts)) as [Hgt|Hle]; [by eexists|].
    destruct (Z.gtb_spec ctxLen (api.NumCtx opts')) as [Hgt'|Hle']; [lia|].
    by eapply IH.
Qed.

(** C4.  For a fixed message list, template and tokenizer, and budgets
    [B <= B']: the window selected under [B'] starts no later than the
    window selected under [B], so it has at least as many messages; and
    when a window is selected under [B'], one is selected under [B]. *)
Theorem truncate_monotone opts opts' :
  api.NumCtx opts <= api.NumCtx opts' ->
  (forall n1 sys1 n2 sys2,
     truncate m tokenize opts msgs tools = Ok (n1, sys1) ->
     truncate m tokenize opts' msgs tools = Ok (n2, sys2) ->
     n2 <= n1 /\
     (length (drop (Z.to_nat n1) msgs) <= length (drop (Z.to_nat n2) msgs))%nat) /\
  (forall n2 sys2,
     truncate m tokenize opts' msgs tools = Ok (n2, sys2) ->
     exists n1 sys1, truncate m tokenize opts msgs tools = Ok (n1, sys1)).
Proof.
  intros HB. split.
  - intros n1 sys1 n2 sys2 H1 H2.
    assert (Hn : n2 <= n1).
    { destruct msgs as [|m0 l] eqn:Hl.
      - rewrite truncate_nil in H1, H2. injection H1 as <- <-.
        by injection H2 as <- <-.
      - rewrite <- Hl in *. assert (Hne : msgs <> []) by (by rewrite Hl).
        destruct (truncate_window _ _ _ _ _ _ _ Hne H1)
          as (w1 & -> & Hw1 & Hf1 & He1 & _).
        destruct (truncate_window _ _ _ _ _ _ _ Hne H2)
          as (w2 & -> & Hw2 & Hf2 & He2 & _).
        destruct (decide (w2 <= w1)%nat) as [Hle|Hgt]; [lia|]. exfalso.
        apply (fits_not_exceeds (api.NumCtx opts') (w2 - 1)).
        + apply (fits_mono (api.NumCtx opts)); [assumption|]. apply Hf1. lia.
        + apply He2. lia. }
    split; [assumption|]. rewrite !length_drop. lia.
  - intros n2 sys2 H2. unfold truncate in *.
    destruct (scan_smaller_budget opts opts' _ HB _ _ _ H2) as [[n1 sys1] H1].
    by exists n1, sys1.
Qed.

End BudgetFacts.

(** ** The second loop *)

Lemma sequential_nil : sequential [].
Proof. intros k d Hk. by rewrite lookup_nil in Hk. Qed.

Lemma sequential_snoc (images : list llm.ImageData) (d : llm.ImageData) :
  sequential images -> llm.ID d = len images -> sequential (images ++ [d]).
Proof.
  intros Hseq Hid k d' Hk.
  destruct (decide (k < length images)%nat) as [Hlt|Hge].
  - rewrite lookup_app_l in Hk by assumption. by apply Hseq.
  - rewrite lookup_app_r in Hk by lia.
    destruct (k - length images)%nat as [|k'] eqn:Hdiff; simpl in Hk; [|done].
    injection Hk as <-. rewrite Hid. unfold len. lia.
Qed.

Lemma sequential_ids (images : list llm.ImageData) :
  sequential images -> map llm.ID images = seqZ 0 (len images).
Proof.
  intros Hseq. apply list_eq. intros k.
  rewrite list_lookup_fmap.
  destruct (images !! k) as [d|] eqn:Hd; simpl.
  - rewrite (Hseq k d Hd). apply lookup_lt_Some in Hd.
    rewrite lookup_seqZ_lt by (unfold len; lia). reflexivity.
  - apply lookup_ge_None in Hd.
    rewrite lookup_seqZ_ge by (unfold len; lia). reflexivity.
Qed.

Section TagFacts.

Variable tensor : Type.
Variable mllama_Preprocess : api.ImageData -> error + (tensor * gmap string any).
Variable binary_Write : tensor -> error + list Byte.byte.
Variable m : Model.

Local Abbreviation tagImage' := (tagImage tensor mllama_Preprocess binary_Write m).
Local Abbreviation tagImages' := (tagImages tensor mllama_Preprocess binary_Write m).
Local Abbreviation tagMessages' := (tagMessages tensor mllama_Preprocess binary_Write m).

(** One image adds one payload, whose id is the number of payloads so
    far; outside the packed family its data are the raw image. *)
Lemma tagImage_ok prefix imgPrompt prompt images i st' :
  tagImage' (prefix, imgPrompt, prompt, images) i = Ok st' ->
  exists prefix' imgPrompt' prompt' d,
    st' = (prefix', imgPrompt', prompt', images ++ [d]) /\
    llm.ID d = len images /\
    (isMllama m = false -> llm.Data d = i).
Proof.
  unfold tagImage. intros H.
  destruct (isMllama m) eqn:Hml.
  - destruct (mllama_Preprocess i) as [e|[data popts]]; simpl in H; [done|].
    destruct (binary_Write data) as [e|buf]; simpl in H; [done|].
    destruct (popts !! "aspectRatioIndex") as [[ar|]|]; simpl in H; try done.
    destruct (negb _); injection H as <-; eexists _, _, _, _;
      (split; [reflexivity|split; [reflexivity|done]]).
  - simpl in H.
    destruct (negb _); injection H as <-; eexists _, _, _, _;
      (split; [reflexivity|split; [reflexivity|done]]).
Qed.

Lemma tagImages_cons i imgs st :
  tagImages' (i :: imgs) st = (st' ← tagImage' st i; tagImages' imgs st').
Proof. reflexivity. Qed.

Lemma tagMessages_cons msg window images :
  tagMessages' (msg :: window) images =
    ('(prefix, imgPrompt, prompt, images) ←
       tagImages' (api.Images msg) (""%string, ""%string, api.Content msg, images);
     '(rest, images) ← tagMessages' window images;
     Ok (api.mkMessage (api.Role msg) (prefix +:+ imgPrompt +:+ prompt)
                       (api.Images msg) :: rest, images)).
Proof. reflexivity. Qed.

Lemma tagImages_ok imgs :
  forall prefix imgPrompt prompt images st',
    tagImages' imgs (prefix, imgPrompt, prompt, images) = Ok st' ->
    exists prefix' imgPrompt' prompt' new,
      st' = (prefix', imgPrompt', prompt', images ++ new) /\
      length new = length imgs /\
      (sequential images -> sequential (images ++ new)) /\
      (isMllama m = false -> map llm.Data new = imgs).
Proof.
  induction imgs as [|i imgs IH]; intros prefix imgPrompt prompt images st' H.
  - simpl in H. injection H as <-. exists prefix, imgPrompt, prompt, [].
    rewrite app_nil_r. done.
  - rewrite tagImages_cons in H.
    destruct (tagImage' _ i) as [st1| |] eqn:H1; simpl in H; try done.
    apply tagImage_ok in H1 as (p1 & ip1 & pr1 & d & -> & Hid & Hdata).
    apply IH in H as (p2 & ip2 & pr2 & new & -> & Hlen & Hseq & Hnew).
    exists p2, ip2, pr2, (d :: new). split_and!.
    + by rewrite <- app_assoc.
    + simpl. by rewrite Hlen.
    + intros Hs.
      replace (images ++ d :: new) with ((images ++ [d]) ++ new)
        by (by rewrite <- app_assoc).
      apply Hseq. by apply sequential_snoc.
    + intros Hml. simpl. by rewrite Hdata, Hnew.
Qed.

(** The loop over the window adds one payload per image of the window,
    in order, and keeps roles and images of the messages. *)
Lemma tagMessages_ok window :
  forall images window' images',
    tagMessages' window images = Ok (window', images') ->
    exists new,
      images' = images ++ new /\
      len new = imageCount window /\
      (sequential images -> sequential images') /\
      (isMllama m = false -> map llm.Data new = concat (map api.Images window)) /\
      map api.Role window' = map api.Role window /\
      map api.Images window' = map api.Images window.
Proof.
  induction window as [|msg window IH]; intros images window' images' H.
  - simpl in H. injection H as <- <-. exists []. rewrite app_nil_r. done.
  - rewrite tagMessages_cons in H.
    destruct (tagImages' _ _) as [[[[p ip] pr] images1]| |] eqn:H1;
      simpl in H; try done.
    apply tagImages_ok in H1 as (p1 & ip1 & pr1 & new1 & Heq & Hlen & Hseq & Hdata).
    injection Heq as -> -> -> ->.
    destruct (tagMessages' window _) as [[rest images2]| |] eqn:H2;
      simpl in H; try done.
    injection H as <- <-.
    apply IH in H2 as (new2 & -> & Hlen2 & Hseq2 & Hdata2 & Hroles & Himgs).
    exists (new1 ++ new2). split_and!.
    + by rewrite <- app_assoc.
    + rewrite len_app, Hlen2. simpl. unfold len. rewrite Hlen. reflexivity.
    + intros Hs. by apply Hseq2, Hseq.
    + intros Hml. simpl. by rewrite map_app, Hdata, Hdata2.
    + simpl. by rewrite Hroles.
    + simpl. by rewrite Himgs.
Qed.

(** The second loop does not panic. *)
Lemma tagMessages_no_panic window images :
  tagMessages' window images <> Panic.
Proof.
  assert (Himage : forall st i, tagImage' st i <> Panic).
  { intros [[[p ip] pr] imgs] i. unfold tagImage.
    destruct (isMllama m); simpl.
    - destruct (mllama_Preprocess i) as [e|[data popts]]; simpl; [done|].
      destruct (binary_Write data) as [e|buf]; simpl; [done|].
      destruct (popts !! "aspectRatioIndex") as [[ar|]|]; simpl; try done.
      by destruct (negb _).
    - by destruct (negb _). }
  assert (Himages : forall l st, tagImages' l st <> Panic).
  { induction l as [|i l IHl]; intros st; [done|].
    rewrite tagImages_cons. specialize (Himage st i).
    destruct (tagImage' st i) as [st1| |]; simpl; [apply IHl|done|done]. }
  revert images. induction window as [|msg window IH]; intros images; [done|].
  rewrite tagMessages_cons.
  specialize (Himages (api.Images msg) (""%string, ""%string, api.Content msg, images)).
  destruct (tagImages' _ _) as [[[[p ip] pr] images1]| |]; simpl; [|done|done].
  specialize (IH images1).
  destruct (tagMessages' window images1) as [[rest images2]| |]; simpl; done.
Qed.

End TagFacts.

(** ** [chatPrompt] as a whole *)

Section ChatPromptFacts.

Variable tensor : Type.
Variable mllama_Preprocess : api.ImageData -> error + (tensor * gmap string any).
Variable binary_Write : tensor -> error + list Byte.byte.

Local Abbreviation chatPrompt' := (chatPrompt tensor mllama_Preprocess binary_Write).
Local Abbreviation tagMessages' := (tagMessages tensor mllama_Preprocess binary_Write).

(** A call that returns without error: the stages it went through. *)
Lemma chatPrompt_success m tokenize opts msgs tools prompt images :
  chatPrompt' m tokenize opts msgs tools = Returns prompt images None ->
  exists (w : nat) (window' : list api.Message),
    msgs <> [] /\ (w < length msgs)%nat /\
    truncate m tokenize opts msgs tools = Ok (Z.of_nat w, carried msgs (w - 1)) /\
    tagMessages' m (drop w msgs) [] = Ok (window', images) /\
    Template m (template.mkValues (carried msgs (w - 1) ++ window') tools)
      = inr prompt.
Proof.
  unfold chatPrompt, chatPrompt_body. intros H.
  destruct msgs as [|m0 l] eqn:Hl.
  { rewrite truncate_nil in H. simpl in H. discriminate. }
  rewrite <- Hl in *. assert (Hne : msgs <> []) by (by rewrite Hl).
  destruct (truncate m tokenize opts msgs tools) as [[n' sys']| |] eqn:Htr;
    simpl in H; try discriminate.
  destruct (truncate_window _ _ _ _ _ _ _ Hne Htr)
    as (w & -> & Hw & _ & _ & -> & _).
  rewrite slice_from_in_range in H by lia. simpl in H.
  destruct (tagMessages' m (drop w msgs) []) as [[window' images']| |] eqn:Htag;
    simpl in H; try discriminate.
  destruct (Template m _) as [e|b] eqn:Hb; simpl in H; try discriminate.
  injection H as <- <-.
  exists w, window'. done.
Qed.

(** *** The newest turn is always in the window *)

(** C1.  For every non-empty message list, whatever the budget, the
    template and the tokenizer: the first loop does not panic, and every
    window it selects is a non-empty suffix of the list that ends with
    the last message; [chatPrompt] does not panic either, and a prompt it
    returns is the rendering of a list that ends with the last message
    (same role, same images, tagged content). *)
Theorem chatPrompt_window_includes_last m tokenize opts msgs tools :
  msgs <> [] ->
  truncate m tokenize opts msgs tools <> Panic /\
  (forall n' sys',
     truncate m tokenize opts msgs tools = Ok (n', sys') ->
     0 <= n' <= len msgs - 1 /\
     exists window,
       slice_from msgs n' = Ok window /\ window <> [] /\
       last window = last msgs) /\
  chatPrompt' m tokenize opts msgs tools <> Panics /\
  (forall prompt images,
     chatPrompt' m tokenize opts msgs tools = Returns prompt images None ->
     exists system window',
       Template m (template.mkValues (system ++ window') tools) = inr prompt /\
       window' <> [] /\
       api.Role <$> last window' = api.Role <$> last msgs /\
       api.Images <$> last window' = api.Images <$> last msgs).
Proof.
  intros Hne.
  assert (Hwin : forall w, (w < length msgs)%nat ->
            drop w msgs <> [] /\ last (drop w msgs) = last msgs).
  { intros w Hw.
    assert (Hd : drop w msgs <> []).
    { intros Hnil. apply (f_equal length) in Hnil.
      rewrite length_drop in Hnil. simpl in Hnil. lia. }
    split; [assumption|].
    rewrite <- (take_drop w msgs) at 2. rewrite last_app.
    apply last_is_Some in Hd as [x ->]. reflexivity. }
  split_and!.
  - apply truncate_no_panic.
  - intros n' sys' Htr.
    destruct (truncate_window _ _ _ _ _ _ _ Hne Htr) as (w & -> & Hw & _).
    split; [unfold len; lia|].
    exists (drop w msgs). rewrite slice_from_in_range by lia.
    destruct (Hwin w Hw). done.
  - unfold chatPrompt, chatPrompt_body.
    destruct (truncate m tokenize opts msgs tools) as [[n' sys']| |] eqn:Htr;
      simpl; [|done|by apply truncate_no_panic in Htr].
    destruct (truncate_window _ _ _ _ _ _ _ Hne Htr) as (w & -> & Hw & _).
    rewrite slice_from_in_range by lia. simpl.
    pose proof (tagMessages_no_panic tensor mllama_Preprocess binary_Write m
                  (drop w msgs) []) as Hnp.
    destruct (tagMessages' m (drop w msgs) []) as [[window' images']| |];
      simpl; [|done|done].
    by destruct (Template m _).
  - intros prompt images Hret.
    apply chatPrompt_success in Hret
      as (w & window' & _ & Hw & _ & Htag & Hrender).
    exists (carried msgs (w - 1)), window'.
    apply tagMessages_ok in Htag as (new & _ & _ & _ & _ & Hroles & Himgs).
    destruct (Hwin w Hw) as [Hd Hlast].
    assert (Hlast' : forall (B : Type) (f : api.Message -> B),
              map f window' = map f (drop w msgs) ->
              f <$> last window' = f <$> last msgs).
    { intros B f Hf. rewrite <- Hlast, <- !fmap_last.
      change (last (map f window') = last (map f (drop w msgs))).
      by rewrite Hf. }
    split_and!; [assumption| |by apply Hlast'|by apply Hlast'].
    intros ->. simpl in Hroles. symmetry in Hroles.
    apply map_eq_nil in Hroles. done.
Qed.

(** *** Image payloads *)

(** C6.  The payloads of a successful call carry the ids [0 .. k-1] in
    order: the id of each payload is its position in the returned
    sequence, so no id is repeated and none is skipped. *)
Theorem chatPrompt_image_ids m tokenize opts msgs tools prompt images :
  chatPrompt' m tokenize opts msgs tools = Returns prompt images None ->
  map llm.ID images = seqZ 0 (len images) /\
  NoDup (map llm.ID images) /\
  (forall (k : nat) (d : llm.ImageData),
     images !! k = Some d -> llm.ID d = Z.of_nat k).
Proof.
  intros Hret.
  apply chatPrompt_success in Hret as (w & window' & _ & _ & _ & Htag & _).
  apply tagMessages_ok in Htag as (new & _ & _ & Hseq & _).
  specialize (Hseq sequential_nil).
  split_and!; [by apply sequential_ids| |exact Hseq].
  rewrite (sequential_ids _ Hseq). apply NoDup_seqZ.
Qed.

(** C7, amended.  Tagging runs after truncation and over the window
    only: a successful call returns one payload for each image of each
    message of the selected window [msgs[w:]], in order of appearance
    and numbered from zero; outside the packed family the payload data
    are the raw images of the window. *)
Theorem chatPrompt_tags_window m tokenize opts msgs tools prompt images :
  chatPrompt' m tokenize opts msgs tools = Returns prompt images None ->
  exists (w : nat) (system : list api.Message),
    truncate m tokenize opts msgs tools = Ok (Z.of_nat w, system) /\
    len images = imageCount (drop w msgs) /\
    map llm.ID images = seqZ 0 (len images) /\
    (isMllama m = false ->
     map llm.Data images = concat (map api.Images (drop w msgs))).
Proof.
  intros Hret.
  apply chatPrompt_success in Hret as (w & window' & _ & _ & Htr & Htag & _).
  apply tagMessages_ok in Htag as (new & Himages & Hlen & Hseq & Hdata & _).
  simpl in Himages. subst new.
  exists w, (carried msgs (w - 1)).
  split_and!; [assumption|assumption| |assumption].
  apply sequential_ids, Hseq, sequential_nil.
Qed.

(** *** More than one image in a message of the packed family *)

(** C5, amended.  Under the packed family, a message with two or more
    images makes [chatPrompt] fail with [errTooManyImages], with an empty
    prompt and no payloads, provided the backward scan reaches that
    message: every candidate window that starts after it (and before the
    last message) renders, tokenizes and fits the budget.  This holds in
    particular when the message is the last one. *)
Theorem chatPrompt_too_many_images m tokenize opts msgs tools
    (k : nat) (msg : api.Message) :
  isMllama m = true ->
  msgs !! k = Some msg ->
  tooManyImages msg ->
  (forall i, (k < i < length msgs - 1)%nat ->
             fits m tokenize msgs tools (api.NumCtx opts) i) ->
  chatPrompt' m tokenize opts msgs tools = Returns "" [] (Some errTooManyImages).
Proof.
  intros Hml Hmsg Hmany Hfits. unfold chatPrompt, chatPrompt_body.
  by rewrite (truncate_too_many m tokenize opts msgs tools k msg).
Qed.

(** *** The empty message list *)

(** C10.  On the empty list the loop leaves [n = -1], the slice
    expression [msgs[currMsgIdx:]] is out of range, and the call panics:
    it returns neither a prompt nor an error. *)
Theorem chatPrompt_nil_panics m tokenize opts tools :
  truncate m tokenize opts [] tools = Ok (-1, []) /\
  slice_from (@nil api.Message) (-1) = Panic /\
  chatPrompt' m tokenize opts [] tools = Panics.
Proof. split_and!; reflexivity. Qed.

End ChatPromptFacts.

(** C1, on two messages and a budget of zero tokens: the window is the
    last message. *)
Lemma chatPrompt_window_includes_last_witness :
  0 <= 1 <= len Fixtures.two_turns - 1 /\
  exists window,
    slice_from Fixtures.two_turns 1 = Ok window /\
    window <> [] /\
    last window = last Fixtures.two_turns.
Proof.
  assert (Hne : Fixtures.two_turns <> []) by discriminate.
  apply (proj1 (proj2 (chatPrompt_window_includes_last
                         (list Byte.byte) Fixtures.preprocess Fixtures.write
                         Fixtures.clip Fixtures.tokenize (api.mkOptions 0)
                         Fixtures.two_turns [] Hne))
               1 []).
  reflexivity.
Defined.

(** C2 as the specification words it fails for a model without
    projector: the window starts at [0 < N-1], yet the token count plus
    768 tokens for the image is above the budget of 100. *)
Lemma truncate_spec_budget_counterexample :
  Fixtures.window Fixtures.textonly Fixtures.tokenize 100
    Fixtures.image_then_text = Ok (0, []) /\
  (0 < length Fixtures.image_then_text - 1)%nat /\
  ~ spec_fits Fixtures.textonly Fixtures.tokenize Fixtures.image_then_text []
      100 0.
Proof.
  split_and!; [reflexivity|simpl; lia|].
  intros (count & (b & s & Hb & Hs & ->) & Hle).
  injection Hb as <-. injection Hs as <-.
  vm_compute in Hle. by apply Hle.
Qed.

(** C2, amended, on the same conversation with a projector: the image now
    counts, the candidate at [0] exceeds the budget and the window is the
    last message. *)
Lemma truncate_boundary_witness :
  exists w : nat,
    1 = Z.of_nat w /\ (w <= length Fixtures.image_then_text - 1)%nat /\
    ((w < length Fixtures.image_then_text - 1)%nat ->
     fits Fixtures.clip Fixtures.tokenize Fixtures.image_then_text [] 100 w) /\
    (forall j, (w <= j < length Fixtures.image_then_text - 1)%nat ->
       fits Fixtures.clip Fixtures.tokenize Fixtures.image_then_text [] 100 j) /\
    ((0 < w)%nat ->
     exceeds Fixtures.clip Fixtures.tokenize Fixtures.image_then_text [] 100
       (w - 1)) /\
    (forall w2 : nat,
       (w2 <= length Fixtures.image_then_text - 1)%nat ->
       (forall j, (w2 <= j < length Fixtures.image_then_text - 1)%nat ->
          fits Fixtures.clip Fixtures.tokenize Fixtures.image_then_text [] 100 j) ->
       ((0 < w2)%nat ->
        exceeds Fixtures.clip Fixtures.tokenize Fixtures.image_then_text [] 100
          (w2 - 1)) ->
       w2 = w) /\
    (is_Some (ProjectorPaths Fixtures.clip) ->
     forall j, (w <= j < length Fixtures.image_then_text - 1)%nat ->
       spec_fits Fixtures.clip Fixtures.tokenize Fixtures.image_then_text [] 100 j).
Proof.
  assert (Hne : Fixtures.image_then_text <> []) by discriminate.
  apply (truncate_boundary Fixtures.clip Fixtures.tokenize
           Fixtures.image_then_text [] (api.mkOptions 100) 1 [] Hne).
  reflexivity.
Defined.

(** C4, on three turns without images and the budgets 15 and 100: the
    window grows from one message to three. *)
Lemma truncate_monotone_witness :
  0 <= 2 /\
  (length (drop (Z.to_nat 2) Fixtures.two_systems)
   <= length (drop (Z.to_nat 0) Fixtures.two_systems))%nat.
Proof.
  assert (HB : api.NumCtx (api.mkOptions 15) <= api.NumCtx (api.mkOptions 100))
    by (simpl; lia).
  apply (proj1 (truncate_monotone Fixtures.clip Fixtures.tokenize
                  Fixtures.two_systems []
                  (api.mkOptions 15) (api.mkOptions 100) HB)
               2 [Fixtures.system "T"] 0 []).
  - reflexivity.
  - reflexivity.
Defined.

(** C5 as stated fails: under the packed family the second message of
    this conversation has two images, but the scan stops at the third
    one, which already exceeds the budget of 14 tokens; the old turn is
    never examined and the call succeeds. *)
Lemma chatPrompt_too_many_images_counterexample :
  isMllama Fixtures.mllama = true /\
  (exists msg, Fixtures.crowded_old_turn !! 1%nat = Some msg /\ tooManyImages msg) /\
  Fixtures.run Fixtures.mllama Fixtures.tokenize 14 Fixtures.crowded_old_turn
    = Returns "system:T;user:[img-0]<|image|>b;"
              [llm.mkImageData Fixtures.img3 0 1] None /\
  Fixtures.run Fixtures.mllama Fixtures.tokenize 14 Fixtures.crowded_old_turn
    <> Returns "" [] (Some errTooManyImages).
Proof.
  split_and!; [reflexivity| |reflexivity|discriminate].
  eexists. split; [reflexivity|]. unfold tooManyImages. simpl. unfold len. simpl. lia.
Qed.

(** C5, amended, on three turns of which the first has two images and
    the other two fit the budget of 100 tokens. *)
Lemma chatPrompt_too_many_images_witness :
  Fixtures.run Fixtures.mllama Fixtures.tokenize 100 Fixtures.three_turns
    = Returns "" [] (Some errTooManyImages).
Proof.
  apply (chatPrompt_too_many_images (list Byte.byte) Fixtures.preprocess
           Fixtures.write Fixtures.mllama Fixtures.tokenize (api.mkOptions 100)
           Fixtures.three_turns [] 0
           (Fixtures.user "x" [Fixtures.img1; Fixtures.img2])).
  - reflexivity.
  - reflexivity.
  - unfold tooManyImages, len. simpl. lia.
  - intros i Hi. simpl in Hi. assert (i = 1%nat) as -> by lia.
    exists 14. split.
    + eexists _, _. split_and!; reflexivity.
    + vm_compute. discriminate.
Defined.

(** C6, on a call that returns three payloads. *)
Lemma chatPrompt_image_ids_witness :
  map llm.ID [llm.mkImageData Fixtures.img1 0 0;
              llm.mkImageData Fixtures.img2 1 0;
              llm.mkImageData Fixtures.img3 2 0] = seqZ 0 3 /\
  NoDup (map llm.ID [llm.mkImageData Fixtures.img1 0 0;
                     llm.mkImageData Fixtures.img2 1 0;
                     llm.mkImageData Fixtures.img3 2 0]) /\
  (forall (k : nat) (d : llm.ImageData),
     [llm.mkImageData Fixtures.img1 0 0;
      llm.mkImageData Fixtures.img2 1 0;
      llm.mkImageData Fixtures.img3 2 0] !! k = Some d -> llm.ID d = Z.of_nat k).
Proof.
  apply (chatPrompt_image_ids (list Byte.byte) Fixtures.preprocess Fixtures.write
           Fixtures.clip Fixtures.tokenize (api.mkOptions 10000)
           Fixtures.three_images []
           "user:[img-0]a;user:[img-2]b [img-1];").
  reflexivity.
Defined.

(** C7 as stated fails: the request has two images, the first in a turn
    that truncation drops; one payload is returned, for the image of the
    last message, and it gets the id 0. *)
Lemma chatPrompt_tags_all_images_counterexample :
  Fixtures.run Fixtures.clip Fixtures.tokenize 10 Fixtures.image_each_turn
    = Returns "user:[img-0]b;" [llm.mkImageData Fixtures.img2 0 0] None /\
  len [llm.mkImageData Fixtures.img2 0 0] <> imageCount Fixtures.image_each_turn /\
  map llm.Data [llm.mkImageData Fixtures.img2 0 0]
    <> concat (map api.Images Fixtures.image_each_turn).
Proof. split_and!; [reflexivity|discriminate|discriminate]. Qed.

(** C7, amended, on the same call: the window starts at index 1. *)
Lemma chatPrompt_tags_window_witness :
  exists (w : nat) (system : list api.Message),
    truncate Fixtures.clip Fixtures.tokenize (api.mkOptions 10)
      Fixtures.image_each_turn [] = Ok (Z.of_nat w, system) /\
    len [llm.mkImageData Fixtures.img2 0 0]
      = imageCount (drop w Fixtures.image_each_turn) /\
    map llm.ID [llm.mkImageData Fixtures.img2 0 0]
      = seqZ 0 (len [llm.mkImageData Fixtures.img2 0 0]) /\
    (isMllama Fixtures.clip = false ->
     map llm.Data [llm.mkImageData Fixtures.img2 0 0]
       = concat (map api.Images (drop w Fixtures.image_each_turn))).
Proof.
  apply (chatPrompt_tags_window (list Byte.byte) Fixtures.preprocess Fixtures.write
           Fixtures.clip Fixtures.tokenize (api.mkOptions 10)
           Fixtures.image_each_turn [] "user:[img-0]b;").
  reflexivity.
Defined.

(** *** System messages at the boundary *)

(** C3 does not hold of the code.  With a budget of 15 tokens the scan
    stops at the system message [S] (index 1): [system] was computed from
    the messages before it and the window starts after it, so [S] is in
    neither, while the earlier system message [T] is carried although the
    prompt then needs 16 tokens. *)
Theorem chatPrompt_drops_system_at_boundary :
  Fixtures.window Fixtures.clip Fixtures.tokenize 15 Fixtures.two_systems
    = Ok (2, [Fixtures.system "T"]) /\
  carried Fixtures.two_systems 2 = [Fixtures.system "T"; Fixtures.system "S"] /\
  Fixtures.run Fixtures.clip Fixtures.tokenize 15 Fixtures.two_systems
    = Returns "system:T;user:b;" [] None.
Proof. split_and!; reflexivity. Qed.

(** ** The response format *)

Section FormatFacts.

Variable json_Marshal : value -> error + RawMessage.

(** X18.  The [chatFormat] of the formatter returns the request format
    unchanged when it is not empty, whatever the tools, and when there
    are no tools, whatever the format (then possibly the empty one); only
    for an empty format and at least one tool does it return the
    serialized schema derived from the tools. *)
Theorem chatFormat_passthrough (reqFormat : RawMessage) (tools : list api.Tool) :
  (reqFormat <> [] ->
   Format.chatFormat json_Marshal reqFormat tools = reqFormat) /\
  (tools = [] ->
   Format.chatFormat json_Marshal reqFormat tools = reqFormat) /\
  (reqFormat = [] -> tools <> [] ->
   forall format,
     json_Marshal (VMap (Format.toolsFormat tools)) = inr format ->
     Format.chatFormat json_Marshal reqFormat tools = format) /\
  (Format.chatFormat json_Marshal reqFormat tools <> reqFormat ->
   reqFormat = [] /\ tools <> []).
Proof.
  unfold Format.chatFormat, len. split_and!.
  - intros Hne. destruct reqFormat; [done|reflexivity].
  - intros ->. simpl. by rewrite orb_true_r.
  - intros -> Hne format Hm.
    assert ((0 <? Z.of_nat (length (@nil Byte.byte)))
            || (Z.of_nat (length tools) =? 0) = false) as ->
      by (by destruct tools).
    by rewrite Hm.
  - intros Hneq. destruct reqFormat; [|done]. destruct tools; done.
Qed.

(** X17.  The older [chatFormat] of [server/prompt.go] agrees on a non-empty
    request format, but for no format and no tools it serializes an empty
    [anyOf] where the formatter returns the empty request format. *)
Lemma prompt_chatFormat_differs (reqFormat : RawMessage) (tools : list api.Tool) :
  (reqFormat <> [] ->
   Prompt.chatFormat json_Marshal reqFormat tools = reqFormat) /\
  (forall format,
     json_Marshal (VMap {[ "anyOf" := VList [] ]}) = inr format ->
     Prompt.chatFormat json_Marshal [] [] = format /\
     Format.chatFormat json_Marshal [] [] = []).
Proof.
  unfold Prompt.chatFormat, Format.chatFormat, len. split.
  - intros Hne. destruct reqFormat; [done|reflexivity].
  - intros format Hm. simpl. by rewrite Hm.
Qed.

End FormatFacts.

(** X18, on the weather tool: an explicit format comes back as it is, and
    so does the empty format when there are no tools. *)
Lemma chatFormat_passthrough_witness :
  Format.chatFormat Fixtures.marshal [Byte.x7b; Byte.x7d]
    [Fixtures.get_current_weather] = [Byte.x7b; Byte.x7d] /\
  Format.chatFormat Fixtures.marshal [] [] = [].
Proof.
  split.
  - apply (proj1 (chatFormat_passthrough Fixtures.marshal [Byte.x7b; Byte.x7d]
                    [Fixtures.get_current_weather])).
    discriminate.
  - apply (proj1 (proj2 (chatFormat_passthrough Fixtures.marshal [] []))).
    reflexivity.
Defined.

(** C8.  The claim holds of the [chatFormat] of the formatter and fails of
    the [chatFormat] of [server/prompt.go], which has no test on the
    number of tools: for no request format and no tools it does not
    return the (empty) request format but the serialization of an object
    with an empty [anyOf] list, for every [json.Marshal] that succeeds;
    with the JSON writer of the examples these are twelve bytes. *)
Theorem prompt_chatFormat_no_tools :
  (forall (json_Marshal : value -> error + RawMessage) (format : RawMessage),
     json_Marshal (VMap {[ "anyOf" := VList [] ]}) = inr format ->
     Prompt.chatFormat json_Marshal [] [] = format) /\
  (forall json_Marshal : value -> error + RawMessage,
     Format.chatFormat json_Marshal [] [] = []) /\
  Prompt.chatFormat Fixtures.marshal [] []
    = list_byte_of_string ("{" +:+ Fixtures.quote "anyOf" +:+ ":[]}") /\
  Prompt.chatFormat Fixtures.marshal [] [] <> [] /\
  Format.chatFormat Fixtures.marshal [] [] = [].
Proof.
  split_and!.
  - intros json_Marshal format Hm. unfold Prompt.chatFormat. simpl.
    by rewrite Hm.
  - reflexivity.
  - vm_compute. reflexivity.
  - vm_compute. discriminate.
  - reflexivity.
Qed.

(** C9.  For exactly one tool the derived format is the tool's own
    object schema, with no [anyOf]: its keys are [type], [properties] and
    [required]; [name] is a string with the one-element enum of the
    function name, [parameters] is the converted parameter schema.  In
    the conversion a property has its [type], and an [enum] exactly when
    the declared enum is not empty; the schema has [required] exactly
    when a required name is declared.  The weather tool yields the
    schema of the specification. *)
Theorem toolsFormat_single_tool (tool : api.Tool) :
  Format.toolsFormat [tool] = Format.toolFormat tool /\
  dom (Format.toolsFormat [tool]) = ({[ "type"; "properties"; "required" ]} : gset string) /\
  Format.toolsFormat [tool] !! "type" = Some (VString "object") /\
  Format.toolsFormat [tool] !! "required" = Some (VStrings ["name"; "parameters"]) /\
  Format.toolsFormat [tool] !! "properties" =
    Some (VMap (<[ "name" := VMap (<[ "type" := VString "string" ]>
                                   {[ "enum" := VStrings [api.Name (api.Function tool)] ]}) ]>
                {[ "parameters" :=
                     VMap (Format.parametersFormat
                             (api.Parameters (api.Function tool))) ]})) /\
  (forall parameters : api.ToolParameters,
     Format.parametersFormat parameters !! "type" = Some (VString "object") /\
     Format.parametersFormat parameters !! "properties" =
       Some (VMap ((fun param => VMap (Format.propertyFormat param))
                     <$> api.Properties parameters)) /\
     Format.parametersFormat parameters !! "required" =
       match api.Required parameters with
       | [] => None
       | required => Some (VStrings required)
       end /\
     dom (Format.parametersFormat parameters) =
       match api.Required parameters with
       | [] => ({[ "type"; "properties" ]} : gset string)
       | _ => {[ "type"; "properties"; "required" ]}
       end) /\
  (forall param : api.ToolProperty,
     Format.propertyFormat param !! "type" = Some (VString (api.Type_ param)) /\
     Format.propertyFormat param !! "enum" =
       match api.Enum param with
       | [] => None
       | enum => Some (VStrings enum)
       end /\
     dom (Format.propertyFormat param) =
       match api.Enum param with
       | [] => ({[ "type" ]} : gset string)
       | _ => {[ "type"; "enum" ]}
       end) /\
  Format.toolsFormat [Fixtures.get_current_weather]
    = Fixtures.get_current_weather_schema.
Proof.
  split_and!; try reflexivity.
  - intros parameters. unfold Format.parametersFormat, len.
    destruct (api.Required parameters) as [|r rs]; simpl;
      split_and!; first [reflexivity | map_keys].
  - intros param. unfold Format.propertyFormat, len.
    destruct (api.Enum param) as [|e es]; simpl;
      split_and!; first [reflexivity | map_keys].
Qed.

(** * Further properties of the formatter *)

(** ** Several tools *)

(** X1.  For any number of tools other than one, the format is an object with
    the single key [anyOf], holding one schema per tool in input order;
    each entry is the format that the tool would get on its own.  For no
    tools this is an empty [anyOf]. *)
Theorem toolsFormat_anyOf_entries (tools : list api.Tool) :
  length tools <> 1%nat ->
  exists schemas : list value,
    Format.toolsFormat tools = {[ "anyOf" := VList schemas ]} /\
    length schemas = length tools /\
    (forall (k : nat) (tool : api.Tool),
       tools !! k = Some tool ->
       schemas !! k = Some (VMap (Format.toolsFormat [tool]))).
Proof.
  intros Hlen.
  exists (map (fun tool => VMap (Format.toolFormat tool)) tools).
  split_and!.
  - destruct tools as [|t1 [|t2 tools]]; [reflexivity|done|reflexivity].
  - by rewrite length_map.
  - intros k tool Hk.
    change (map (fun tool => VMap (Format.toolFormat tool)) tools)
      with ((fun tool => VMap (Format.toolFormat tool)) <$> tools).
    by rewrite list_lookup_fmap, Hk.
Qed.

Lemma toolsFormat_anyOf_entries_witness :
  exists schemas : list value,
    Format.toolsFormat [Fixtures.get_current_weather; Fixtures.get_current_weather]
      = {[ "anyOf" := VList schemas ]} /\
    length schemas = 2%nat /\
    (forall (k : nat) (tool : api.Tool),
       [Fixtures.get_current_weather; Fixtures.get_current_weather] !! k = Some tool ->
       schemas !! k = Some (VMap (Format.toolsFormat [tool]))).
Proof.
  apply (toolsFormat_anyOf_entries
           [Fixtures.get_current_weather; Fixtures.get_current_weather]).
  simpl. lia.
Defined.

(** X2.  The format has the key [anyOf] exactly when the number of tools is
    not one, and the key [type] exactly when it is one: a reader can tell
    the two shapes apart. *)
Theorem toolsFormat_shape (tools : list api.Tool) :
  (is_Some (Format.toolsFormat tools !! "anyOf") <-> length tools <> 1%nat) /\
  (is_Some (Format.toolsFormat tools !! "type") <-> length tools = 1%nat).
Proof.
  destruct tools as [|t1 [|t2 tools]]; simpl; split; split;
    first [ done
          | by intros [x Hx]
          | intros _; by eexists ].
Qed.

(** ** The schema keeps what it was made from *)

#[local] Instance VString_inj : Inj (=) (=) VString.
Proof.
  intros s1 s2 H.
  exact (f_equal (fun v => match v with VString s => s | _ => s1 end) H).
Qed.

#[local] Instance VStrings_inj : Inj (=) (=) VStrings.
Proof.
  intros l1 l2 H.
  exact (f_equal (fun v => match v with VStrings l => l | _ => l1 end) H).
Qed.

#[local] Instance VList_inj : Inj (=) (=) VList.
Proof.
  intros l1 l2 H.
  exact (f_equal (fun v => match v with VList l => l | _ => l1 end) H).
Qed.

#[local] Instance VMap_inj : Inj (=) (=) VMap.
Proof.
  intros o1 o2 H.
  exact (f_equal (fun v => match v with VMap o => o | _ => o1 end) H).
Qed.

Lemma propertyFormat_inj (p1 p2 : api.ToolProperty) :
  Format.propertyFormat p1 = Format.propertyFormat p2 -> p1 = p2.
Proof.
  intros H.
  pose proof (f_equal (fun o : gmap string value => o !! "type") H) as Ht.
  pose proof (f_equal (fun o : gmap string value => o !! "enum") H) as He.
  clear H. destruct p1 as [t1 e1], p2 as [t2 e2].
  unfold Format.propertyFormat, len in Ht, He. simpl in Ht, He.
  assert (t1 = t2) as ->.
  { destruct e1, e2; simpl in Ht;
      rewrite ?(lookup_insert_ne _ "enum" "type") in Ht by done;
      rewrite !lookup_singleton_eq in Ht;
      by apply (inj Some), (inj VString) in Ht. }
  f_equal.
  destruct e1 as [|x1 e1], e2 as [|x2 e2]; simpl in He;
    rewrite ?lookup_insert_eq in He;
    rewrite ?(lookup_singleton_ne "type" "enum") in He by done;
    [reflexivity|discriminate|discriminate|].
  by apply (inj Some), (inj VStrings) in He.
Qed.

Lemma parametersFormat_inj (p1 p2 : api.ToolParameters) :
  Format.parametersFormat p1 = Format.parametersFormat p2 -> p1 = p2.
Proof.
  intros H.
  pose proof (f_equal (fun o : gmap string value => o !! "properties") H) as Hp.
  pose proof (f_equal (fun o : gmap string value => o !! "required") H) as Hr.
  clear H. destruct p1 as [r1 ps1], p2 as [r2 ps2].
  unfold Format.parametersFormat, len in Hp, Hr. simpl in Hp, Hr.
  assert (ps1 = ps2) as ->.
  { assert (Hinj : Inj (=) (=) (fun param => VMap (Format.propertyFormat param))).
    { intros a b Hab. by apply (inj VMap), propertyFormat_inj in Hab. }
    apply (inj (fmap (fun param => VMap (Format.propertyFormat param)))).
    destruct r1, r2; simpl in Hp;
      rewrite ?(lookup_insert_ne _ "required" "properties") in Hp by done;
      rewrite !lookup_insert_eq in Hp;
      by apply (inj Some), (inj VMap) in Hp. }
  f_equal.
  destruct r1 as [|x1 r1], r2 as [|x2 r2]; simpl in Hr;
    rewrite ?lookup_insert_eq in Hr;
    rewrite ?(lookup_insert_ne _ "properties" "required") in Hr by done;
    rewrite ?(lookup_singleton_ne "type" "required") in Hr by done;
    [reflexivity|discriminate|discriminate|].
  by apply (inj Some), (inj VStrings) in Hr.
Qed.

Lemma toolFormat_inj (t1 t2 : api.Tool) :
  Format.toolFormat t1 = Format.toolFormat t2 -> t1 = t2.
Proof.
  intros H.
  pose proof (f_equal (fun o : gmap string value => o !! "properties") H) as Hp.
  clear H. destruct t1 as [[n1 p1]], t2 as [[n2 p2]].
  unfold Format.toolFormat in Hp. simpl in Hp.
  rewrite !(lookup_insert_ne _ "type" "properties") in Hp by done.
  rewrite !lookup_insert_eq in Hp.
  apply (inj Some), (inj VMap) in Hp.
  pose proof (f_equal (fun o : gmap string value => o !! "name") Hp) as Hn.
  pose proof (f_equal (fun o : gmap string value => o !! "parameters") Hp) as Hq.
  clear Hp. simpl in Hn, Hq.
  rewrite !lookup_insert_eq in Hn.
  apply (inj Some), (inj VMap) in Hn.
  rewrite !(lookup_insert_ne _ "name" "parameters") in Hq by done.
  rewrite !lookup_singleton_eq in Hq.
  apply (inj Some), (inj VMap), parametersFormat_inj in Hq.
  pose proof (f_equal (fun o : gmap string value => o !! "enum") Hn) as He.
  clear Hn. simpl in He.
  rewrite !(lookup_insert_ne _ "type" "enum") in He by done.
  rewrite !lookup_singleton_eq in He.
  apply (inj Some), (inj VStrings) in He.
  injection He as ->. by rewrite Hq.
Qed.

(** X3.  Tool lists that differ in anything the formatter reads (the function
    names, the required names, the declared parameter names with their
    types and enums, the order or the number of tools) get different
    formats. *)
Theorem toolsFormat_inj (tools1 tools2 : list api.Tool) :
  Format.toolsFormat tools1 = Format.toolsFormat tools2 -> tools1 = tools2.
Proof.
  intros H.
  assert (Hinj : Inj (=) (=) (fun tool => VMap (Format.toolFormat tool))).
  { intros a b Hab. by apply (inj VMap), toolFormat_inj in Hab. }
  assert (Hmany : forall l1 l2 : list api.Tool,
            ({[ "anyOf" := VList (map (fun tool => VMap (Format.toolFormat tool)) l1) ]}
               : gmap string value)
            = {[ "anyOf" := VList (map (fun tool => VMap (Format.toolFormat tool)) l2) ]} ->
            l1 = l2).
  { intros l1 l2 Heq.
    pose proof (f_equal (fun o : gmap string value => o !! "anyOf") Heq) as Ha.
    clear Heq. simpl in Ha. rewrite !lookup_singleton_eq in Ha.
    apply (inj Some), (inj VList) in Ha.
    by apply (inj (fmap (fun tool => VMap (Format.toolFormat tool)))). }
  assert (Hmixed : forall (t : api.Tool) (schemas : list value),
            Format.toolFormat t <> {[ "anyOf" := VList schemas ]}).
  { intros t schemas Heq.
    pose proof (f_equal (fun o : gmap string value => o !! "type") Heq) as Ht.
    clear Heq. unfold Format.toolFormat in Ht. simpl in Ht.
    rewrite lookup_insert_eq in Ht.
    rewrite (lookup_singleton_ne "anyOf" "type") in Ht by done. done. }
  destruct tools1 as [|a1 [|b1 l1]], tools2 as [|a2 [|b2 l2]]; simpl in H;
    first [ reflexivity
          | by apply Hmixed in H
          | by (symmetry in H; apply Hmixed in H)
          | by rewrite (toolFormat_inj a1 a2 H)
          | by apply Hmany ].
Qed.

Lemma toolsFormat_inj_witness :
  [Fixtures.get_current_weather] = [Fixtures.get_current_weather].
Proof.
  apply (toolsFormat_inj [Fixtures.get_current_weather]
                         [Fixtures.get_current_weather]).
  reflexivity.
Defined.

(** ** [chatFormat] applied to its own result *)

(** X4.  The format that [chatFormat] returns is one it passes through: giving
    it back as the request format, with the same tools, changes nothing.
    This holds also when [json.Marshal] fails and the result is the empty
    format. *)
Theorem chatFormat_idempotent (json_Marshal : value -> error + RawMessage)
    (reqFormat : RawMessage) (tools : list api.Tool) :
  Format.chatFormat json_Marshal
    (Format.chatFormat json_Marshal reqFormat tools) tools
  = Format.chatFormat json_Marshal reqFormat tools.
Proof.
  unfold Format.chatFormat.
  destruct ((0 <? len reqFormat) || (len tools =? 0)) eqn:Hreq.
  - by rewrite Hreq.
  - apply orb_false_elim in Hreq as [Hf Ht]. rewrite Ht, orb_false_r.
    destruct (json_Marshal (VMap (Format.toolsFormat tools))) as [e|format].
    + reflexivity.
    + destruct (0 <? len format); reflexivity.
Qed.

(** * Further properties of [chatPrompt] *)

(** ** The model family *)

(** X6.  A model is of the packed family exactly when the name [mllama]
    occurs, spelled so, among its families; then an image costs one
    token, otherwise 768.  A model without families is not packed. *)
Theorem checkMllamaModelFamily_spec (m : Model) :
  (checkMllamaModelFamily m = true <-> "mllama" ∈ Config_ModelFamilies m) /\
  (imageNumTokens m = 1 <-> "mllama" ∈ Config_ModelFamilies m) /\
  (imageNumTokens m = 768 <-> "mllama" ∉ Config_ModelFamilies m).
Proof.
  assert (Hin : checkMllamaModelFamily m = true
                <-> "mllama" ∈ Config_ModelFamilies m).
  { unfold checkMllamaModelFamily. rewrite existsb_exists. split.
    - intros (arch & Hin & Heq). apply String.eqb_eq in Heq. subst arch.
      by apply list_elem_of_In.
    - intros Hin. exists "mllama". split; [by apply list_elem_of_In|].
      apply String.eqb_refl. }
  unfold imageNumTokens, isMllama.
  destruct (checkMllamaModelFamily m); split_and!;
    try assumption; split; try done; intros H.
  - by apply Hin.
  - exfalso. apply H. by apply Hin.
  - apply Hin in H. discriminate.
  - intros Hm. apply Hin in Hm. discriminate.
Qed.

(** ** A single message *)

Lemma truncate_single m tokenize opts msg tools :
  truncate m tokenize opts [msg] tools =
    if isMllama m && (1 <? len (api.Images msg))
    then Err errTooManyImages
    else Ok (0, []).
Proof.
  unfold truncate. simpl.
  by destruct (isMllama m && (1 <? len (api.Images msg))).
Qed.

(** X7.  With one message there is nothing to truncate: the tokenizer is not
    consulted and the budget is not read, so the call gives the same
    result for any tokenizer and any options. *)
Theorem chatPrompt_single_message tensor mllama_Preprocess binary_Write
    m tokenize tokenize' opts opts' msg tools :
  chatPrompt tensor mllama_Preprocess binary_Write m tokenize opts [msg] tools
  = chatPrompt tensor mllama_Preprocess binary_Write m tokenize' opts' [msg] tools.
Proof.
  unfold chatPrompt, chatPrompt_body. by rewrite !truncate_single.
Qed.

(** ** The scan, read forwards *)

Section ScanCompleteness.

Variable m : Model.
Variable tokenize : tokenizeFunc.
Variable opts : api.Options.
Variable msgs : list api.Message.
Variable tools : list api.Tool.

Local Abbreviation scan_from := (scan m tokenize opts msgs tools).
Local Abbreviation fitsB := (fits m tokenize msgs tools (api.NumCtx opts)).
Local Abbreviation exceedsB := (exceeds m tokenize msgs tools (api.NumCtx opts)).
Local Abbreviation imagesAccepted := (imagesAccepted m msgs).

Lemma imagesAccepted_check (lo j : nat) (msg : api.Message) :
  imagesAccepted lo -> (lo <= j)%nat -> msgs !! j = Some msg ->
  isMllama m && (1 <? len (api.Images msg)) = false.
Proof.
  intros Hacc Hj Hmsg. destruct (isMllama m) eqn:Hml; [|reflexivity]. simpl.
  apply Z.ltb_ge. specialize (Hacc Hml j msg Hj Hmsg).
  unfold tooManyImages in Hacc. lia.
Qed.

Lemma scan_complete (w : nat) :
  imagesAccepted (w - 1) ->
  ((0 < w)%nat -> exceedsB (w - 1)) ->
  forall (k : nat) system,
    (w <= k < length msgs)%nat ->
    (forall j, (w <= j < k)%nat -> fitsB j) ->
    (k = 0%nat -> system = []) ->
    scan_from k (Z.of_nat k) system = Ok (Z.of_nat w, carried msgs (w - 1)).
Proof.
  intros Hacc Hexc. induction k as [|k IH]; intros system Hk Hfits Hsys.
  - replace w with 0%nat by lia. simpl. by rewrite Hsys.
  - rewrite scan_step by lia.
    destruct (index_in_range msgs k) as (msg & Hidx & Hmsg); [lia|].
    rewrite Hidx. simpl.
    rewrite (imagesAccepted_check (w - 1) k msg) by (assumption || lia).
    destruct (decide (w = S k)) as [->|Hne].
    + destruct Hexc as (count & (b & s & Hb & Hs & ->) & Hgt); [lia|].
      replace (S k - 1)%nat with k in * by lia.
      rewrite Hb. simpl. rewrite Hs. simpl.
      destruct (Z.gtb_spec (len s + imageTokens m msgs k) (api.NumCtx opts));
        [reflexivity|lia].
    + destruct (Hfits k) as (count & (b & s & Hb & Hs & ->) & Hle); [lia|].
      rewrite Hb. simpl. rewrite Hs. simpl.
      destruct (Z.gtb_spec (len s + imageTokens m msgs k) (api.NumCtx opts));
        [lia|].
      apply IH; [lia| |].
      * intros j Hj. apply Hfits. lia.
      * intros ->. reflexivity.
Qed.

Lemma truncate_selects (w : nat) :
  (w < length msgs)%nat ->
  imagesAccepted (w - 1) ->
  (forall j, (w <= j < length msgs - 1)%nat -> fitsB j) ->
  ((0 < w)%nat -> exceedsB (w - 1)) ->
  truncate m tokenize opts msgs tools = Ok (Z.of_nat w, carried msgs (w - 1)).
Proof.
  intros Hw Hacc Hfits Hexc.
  rewrite truncate_first_pass by (intros Hnil; rewrite Hnil in Hw; simpl in Hw; lia).
  destruct (index_in_range msgs (length msgs - 1)) as (msg & Hidx & Hmsg); [lia|].
  replace (Z.of_nat (length msgs - 1)) with (len msgs - 1) in Hidx
    by (unfold len; lia).
  rewrite Hidx. simpl.
  rewrite (imagesAccepted_check (w - 1) (length msgs - 1) msg)
    by (assumption || lia).
  apply scan_complete; try assumption; [lia|].
  intros Hone. reflexivity.
Qed.

(** X8.  The window that truncation selects, characterized.  The call selects
    the start index [w] and carries [system] exactly when: every
    candidate from [w] up to [N-2] renders, tokenizes and fits the
    budget; the candidate at [w-1], if there is one, exceeds it; under
    the packed family no message from [w-1] on has more than one image;
    and [system] is the list of system messages before [w-1].  With
    [w = 0] this is a history that fits as a whole, with [w = N-1] a
    budget too small for the last two messages. *)
Theorem truncate_characterization (w : nat) (system : list api.Message) :
  (w < length msgs)%nat ->
  truncate m tokenize opts msgs tools = Ok (Z.of_nat w, system)
  <->
  (imagesAccepted (w - 1) /\
   (forall j, (w <= j < length msgs - 1)%nat -> fitsB j) /\
   ((0 < w)%nat -> exceedsB (w - 1)) /\
   system = carried msgs (w - 1)).
Proof.
  intros Hw. split.
  - intros Htr.
    assert (Hne : msgs <> []) by (intros Hnil; rewrite Hnil in Hw; simpl in Hw; lia).
    destruct (truncate_window _ _ _ _ _ _ _ Hne Htr)
      as (w' & Hw' & _ & Hfits & Hexc & Hsys & Hone).
    assert (w' = w) as -> by lia.
    split_and!; try assumption.
    intros Hml j msg Hj Hmsg. pose proof (lookup_lt_Some _ _ _ Hmsg).
    apply (Hone j msg); [lia|assumption|assumption].
  - intros (Hacc & Hfits & Hexc & ->). by apply truncate_selects.
Qed.

(** An error of the template or of the tokenizer on a candidate that the
    scan reaches ends the scan with that error. *)
Lemma scan_render_error (k : nat) (e : error) :
  imagesAccepted k ->
  (Template m (template.mkValues (candidate msgs k) tools) = inl e \/
   exists b, Template m (template.mkValues (candidate msgs k) tools) = inr b /\
             tokenize b = inl e) ->
  forall (j : nat) system,
    (k < j <= length msgs)%nat ->
    (forall i, (k < i < j)%nat -> fitsB i) ->
    scan_from j (Z.of_nat j) system = Err e.
Proof.
  intros Hacc Hfail. induction j as [|j IH]; intros system Hj Hfits; [lia|].
  rewrite scan_step by lia.
  destruct (index_in_range msgs j) as (msg & Hidx & Hmsg); [lia|].
  rewrite Hidx. simpl.
  rewrite (imagesAccepted_check k j msg) by (assumption || lia).
  destruct (decide (j = k)) as [->|Hne].
  - destruct Hfail as [Hb|(b & Hb & Hs)]; rewrite Hb; simpl; [reflexivity|].
    by rewrite Hs.
  - destruct (Hfits j) as (count & (b & s & Hb & Hs & ->) & Hle); [lia|].
    rewrite Hb. simpl. rewrite Hs. simpl.
    destruct (Z.gtb_spec (len s + imageTokens m msgs j) (api.NumCtx opts));
      [lia|].
    apply IH; [lia|]. intros i Hi. apply Hfits. lia.
Qed.

Lemma truncate_render_error (k : nat) (e : error) :
  (k < length msgs - 1)%nat ->
  imagesAccepted k ->
  (forall i, (k < i < length msgs - 1)%nat -> fitsB i) ->
  (Template m (template.mkValues (candidate msgs k) tools) = inl e \/
   exists b, Template m (template.mkValues (candidate msgs k) tools) = inr b /\
             tokenize b = inl e) ->
  truncate m tokenize opts msgs tools = Err e.
Proof.
  intros Hk Hacc Hfits Hfail.
  rewrite truncate_first_pass by (intros Hnil; rewrite Hnil in Hk; simpl in Hk; lia).
  destruct (index_in_range msgs (length msgs - 1)) as (msg & Hidx & Hmsg); [lia|].
  replace (Z.of_nat (length msgs - 1)) with (len msgs - 1) in Hidx
    by (unfold len; lia).
  rewrite Hidx. simpl.
  rewrite (imagesAccepted_check k (length msgs - 1) msg) by (assumption || lia).
  apply (scan_render_error k e); try assumption. lia.
Qed.

End ScanCompleteness.

(** ** Strings *)

Lemma append_cons (x : ascii) (a b : string) :
  String x a +:+ b = String x (a +:+ b).
Proof. reflexivity. Qed.

Lemma append_assoc (a b c : string) : (a +:+ b) +:+ c = a +:+ (b +:+ c).
Proof.
  induction a as [|x a IH]; [reflexivity|].
  rewrite !append_cons. by f_equal.
Qed.

Lemma append_nil_r (a : string) : a +:+ EmptyString = a.
Proof.
  induction a as [|x a IH]; [reflexivity|].
  rewrite append_cons. by f_equal.
Qed.

Lemma substring_add (s : string) :
  forall k n r : nat,
    String.substring k (n + r) s
    = String.substring k n s +:+ String.substring (k + n) r s.
Proof.
  induction s as [|c s IH]; intros k n r.
  - destruct k, n, r; reflexivity.
  - destruct k as [|k]; simpl.
    + destruct n as [|n]; simpl; [reflexivity|].
      rewrite append_cons. f_equal. apply (IH 0%nat n r).
    + apply IH.
Qed.

Lemma substring_all (s : string) (n : nat) :
  (String.length s <= n)%nat -> String.substring 0 n s = s.
Proof.
  revert n. induction s as [|c s IH]; intros n Hn.
  - by destruct n.
  - destruct n as [|n]; simpl in *; [lia|]. f_equal. apply IH. lia.
Qed.

Lemma length_substring_le (s : string) (n : nat) :
  (String.length (String.substring 0 n s) <= n)%nat.
Proof.
  revert n. induction s as [|c s IH]; intros n.
  - destruct n; simpl; lia.
  - destruct n as [|n]; simpl; [lia|]. specialize (IH n). lia.
Qed.

(** [strings.Replace(s, old, new, 1)] on a string that contains [old]:
    the string splits around the first occurrence of [old], which is what
    gets replaced. *)
Lemma strings_Replace1_found (s old new : string) :
  strings_Contains s old = true ->
  exists a b : string,
    s = a +:+ old +:+ b /\
    strings_Replace1 s old new = a +:+ new +:+ b /\
    (forall p : nat,
       (p < String.length a)%nat ->
       String.substring p (String.length old) s <> old).
Proof.
  unfold strings_Contains, strings_Replace1. intros Hc.
  destruct (String.index 0 old s) as [k|] eqn:Hk; [|discriminate].
  set (rest := (String.length s - (k + String.length old))%nat).
  exists (String.substring 0 k s),
         (String.substring (k + String.length old) rest s).
  split_and!; [|reflexivity|].
  - pose proof (String.index_correct1 _ _ _ _ Hk) as Hold.
    transitivity (String.substring 0 (k + (String.length old + rest)) s).
    { symmetry. apply substring_all. unfold rest. lia. }
    rewrite (substring_add s 0 k (String.length old + rest)).
    rewrite (substring_add s (0 + k) (String.length old) rest).
    simpl (0 + k)%nat. by rewrite Hold.
  - intros p Hp. apply (String.index_correct2 _ _ _ _ Hk); [lia|].
    pose proof (length_substring_le s k). lia.
Qed.

Lemma strings_Replace1_absent (s old new : string) :
  strings_Contains s old = false -> strings_Replace1 s old new = s.
Proof.
  unfold strings_Contains, strings_Replace1.
  by destruct (String.index 0 old s).
Qed.

(** ** Tagging, image by image *)

Section TagPlacement.

Variable tensor : Type.
Variable mllama_Preprocess : api.ImageData -> error + (tensor * gmap string any).
Variable binary_Write : tensor -> error + list Byte.byte.
Variable m : Model.

Local Abbreviation tagImage' := (tagImage tensor mllama_Preprocess binary_Write m).
Local Abbreviation tagImages' := (tagImages tensor mllama_Preprocess binary_Write m).
Local Abbreviation tagMessages' := (tagMessages tensor mllama_Preprocess binary_Write m).
Local Abbreviation encoded := (encodedBy mllama_Preprocess binary_Write).

(** X11.  Where the tag of an image goes.  When the content still holds the
    placeholder [[img]], its first occurrence is replaced by the tag and
    the prefix stays; otherwise the tag is appended to the prefix and the
    content stays.  The tag carries the number of payloads collected so
    far. *)
Theorem tagImage_places_tag prefix imgPrompt prompt images i
    prefix' imgPrompt' prompt' images' :
  tagImage' (prefix, imgPrompt, prompt, images) i
    = Ok (prefix', imgPrompt', prompt', images') ->
  if strings_Contains prompt "[img]"
  then prefix' = prefix /\
       exists a b : string,
         prompt = a +:+ "[img]" +:+ b /\
         prompt' = a +:+ imgTag_of (len images) +:+ b /\
         (forall p : nat,
            (p < String.length a)%nat ->
            String.substring p 5 prompt <> "[img]")
  else prefix' = prefix +:+ imgTag_of (len images) /\ prompt' = prompt.
Proof.
  unfold tagImage. intros H.
  pose proof (strings_Replace1_found prompt "[img]" (imgTag_of (len images)))
    as Hfound.
  assert (Hml : exists (d : llm.ImageData) (ip : string),
            llm.ID d = len images /\
            (let '(prefix0, prompt0) :=
               if negb (strings_Contains prompt "[img]")
               then (prefix +:+ imgTag_of (llm.ID d), prompt)
               else (prefix, strings_Replace1 prompt "[img]" (imgTag_of (llm.ID d)))
             in (Ok (prefix0, ip, prompt0, images ++ [d])
                   : result (string * string * string * list llm.ImageData)))
            = Ok (prefix', imgPrompt', prompt', images')).
  { destruct (isMllama m).
    - destruct (mllama_Preprocess i) as [e|[data popts]]; simpl in H; [done|].
      destruct (binary_Write data) as [e|buf]; simpl in H; [done|].
      destruct (popts !! "aspectRatioIndex") as [[ar|]|]; simpl in H; try done.
      exists (llm.mkImageData buf (len images) ar), "<|image|>"%string.
      split; [reflexivity|exact H].
    - simpl in H. exists (llm.mkImageData i (len images) 0), imgPrompt.
      split; [reflexivity|exact H]. }
  clear H. destruct Hml as (d & ip & Hid & H). rewrite Hid in H.
  destruct (strings_Contains prompt "[img]"); simpl in H;
    injection H as <- <- <- <-; [|done].
  split; [reflexivity|].
  destruct (Hfound eq_refl) as (a & b & Hs & Hr & Hfirst).
  exists a, b. split_and!; [exact Hs|exact Hr|exact Hfirst].
Qed.

(** Outside the packed family, on a content without placeholder, the
    tags of all images go in front of the content, which is kept. *)
Lemma tagImages_no_placeholder imgs :
  isMllama m = false ->
  forall prefix imgPrompt prompt images,
    strings_Contains prompt "[img]" = false ->
    tagImages' imgs (prefix, imgPrompt, prompt, images)
    = Ok (prefix +:+ imgTags (len images) (length imgs), imgPrompt, prompt,
          images ++ rawPayloads (len images) imgs).
Proof.
  intros Hml. induction imgs as [|i imgs IH];
    intros prefix imgPrompt prompt images Hc.
  - simpl. by rewrite append_nil_r, app_nil_r.
  - rewrite tagImages_cons. unfold tagImage at 1. rewrite Hml, Hc. simpl.
    rewrite IH by assumption.
    rewrite len_app. change (len [_]) with 1.
    by rewrite append_assoc, <- app_assoc.
Qed.

(** X12.  A message of the generic family without placeholder: its new content
    is the tags of its images, numbered from the number of payloads
    collected before it, followed by the old content; its payloads are
    its raw images with the same numbers. *)
Theorem tagMessages_prepends_tags msg window images :
  isMllama m = false ->
  strings_Contains (api.Content msg) "[img]" = false ->
  tagMessages' (msg :: window) images =
    ('(rest, images') ←
       tagMessages' window (images ++ rawPayloads (len images) (api.Images msg));
     Ok (api.mkMessage (api.Role msg)
           (imgTags (len images) (length (api.Images msg)) +:+ api.Content msg)
           (api.Images msg) :: rest,
         images')).
Proof.
  intros Hml Hc. rewrite tagMessages_cons.
  rewrite tagImages_no_placeholder by assumption. simpl.
  destruct (tagMessages' window _) as [[rest images']| |]; reflexivity.
Qed.

(** Messages without images are left as they are and add no payload. *)
Lemma tagMessages_no_images window :
  Forall (fun msg => api.Images msg = []) window ->
  forall images, tagMessages' window images = Ok (window, images).
Proof.
  induction 1 as [|msg window Hmsg _ IH]; intros images; [reflexivity|].
  rewrite tagMessages_cons. rewrite Hmsg. simpl. rewrite IH. simpl.
  destruct msg as [role content imgs]. simpl in *. by subst imgs.
Qed.

(** Under the packed family every payload is the encoding of its image. *)
Lemma tagImage_encoded prefix imgPrompt prompt images i st' :
  isMllama m = true ->
  tagImage' (prefix, imgPrompt, prompt, images) i = Ok st' ->
  exists prefix' prompt' d,
    st' = (prefix', "<|image|>"%string, prompt', images ++ [d]) /\ encoded i d.
Proof.
  unfold tagImage. intros Hml H. rewrite Hml in H.
  destruct (mllama_Preprocess i) as [e|[data popts]] eqn:Hp; simpl in H; [done|].
  destruct (binary_Write data) as [e|buf] eqn:Hw; simpl in H; [done|].
  destruct (popts !! "aspectRatioIndex") as [[ar|]|] eqn:Har; simpl in H; try done.
  destruct (negb _); injection H as <-; eexists _, _, _;
    (split; [reflexivity|]); by exists data, popts.
Qed.

Lemma tagImages_encoded imgs :
  isMllama m = true ->
  forall prefix imgPrompt prompt images st',
    tagImages' imgs (prefix, imgPrompt, prompt, images) = Ok st' ->
    exists prefix' imgPrompt' prompt' new,
      st' = (prefix', imgPrompt', prompt', images ++ new) /\
      Forall2 encoded imgs new.
Proof.
  intros Hml. induction imgs as [|i imgs IH];
    intros prefix imgPrompt prompt images st' H.
  - simpl in H. injection H as <-. exists prefix, imgPrompt, prompt, [].
    by rewrite app_nil_r.
  - rewrite tagImages_cons in H.
    destruct (tagImage' _ i) as [st1| |] eqn:H1; simpl in H; try done.
    apply tagImage_encoded in H1 as (p1 & pr1 & d & -> & Hd); [|assumption].
    apply IH in H as (p2 & ip2 & pr2 & new & -> & Hnew).
    exists p2, ip2, pr2, (d :: new). split.
    + by rewrite <- app_assoc.
    + by constructor.
Qed.

Lemma tagMessages_encoded window :
  isMllama m = true ->
  forall images window' images',
    tagMessages' window images = Ok (window', images') ->
    exists new,
      images' = images ++ new /\
      Forall2 encoded (concat (map api.Images window)) new.
Proof.
  intros Hml. induction window as [|msg window IH];
    intros images window' images' H.
  - simpl in H. injection H as <- <-. exists []. by rewrite app_nil_r.
  - rewrite tagMessages_cons in H.
    destruct (tagImages' _ _) as [[[[p ip] pr] images1]| |] eqn:H1;
      simpl in H; try done.
    apply tagImages_encoded in H1 as (p1 & ip1 & pr1 & new1 & Heq & Hnew1);
      [|assumption].
    injection Heq as -> -> -> ->.
    destruct (tagMessages' window _) as [[rest images2]| |] eqn:H2;
      simpl in H; try done.
    injection H as <- <-.
    apply IH in H2 as (new2 & -> & Hnew2).
    exists (new1 ++ new2). split; [by rewrite <- app_assoc|].
    simpl. by apply Forall2_app.
Qed.

End TagPlacement.

(** ** Errors, payloads and system messages of a call *)

Lemma systemCount_app (l1 l2 : list api.Message) :
  systemCount (l1 ++ l2) = (systemCount l1 + systemCount l2)%nat.
Proof. unfold systemCount. by rewrite filter_app, length_app. Qed.

Lemma systemCount_roles (l1 l2 : list api.Message) :
  map api.Role l1 = map api.Role l2 -> systemCount l1 = systemCount l2.
Proof.
  revert l2. induction l1 as [|x l1 IH]; intros [|y l2] H; try done.
  simpl in H. injection H as Hxy H. specialize (IH l2 H).
  unfold systemCount in *. rewrite !filter_cons.
  destruct (decide (isSystem x)) as [Hx|Hx], (decide (isSystem y)) as [Hy|Hy];
    unfold isSystem in Hx, Hy; simpl; try congruence.
Qed.

Lemma systemCount_carried (msgs : list api.Message) (i : nat) :
  systemCount (carried msgs i) = systemCount (take i msgs).
Proof.
  unfold systemCount, carried. f_equal.
  induction (take i msgs) as [|x l IH]; [reflexivity|].
  rewrite filter_cons. destruct (decide (isSystem x)) as [Hx|Hx].
  - rewrite filter_cons. destruct (decide (isSystem x)); [|done]. by f_equal.
  - exact IH.
Qed.

Lemma systemCount_singleton (x : api.Message) :
  systemCount [x] = if decide (isSystem x) then 1%nat else 0%nat.
Proof.
  unfold systemCount. rewrite filter_cons, filter_nil.
  by destruct (decide (isSystem x)).
Qed.

Lemma imageCount_le_length (l : list api.Message) :
  (forall msg, msg ∈ l -> len (api.Images msg) <= 1) ->
  imageCount l <= len l.
Proof.
  induction l as [|x l IH]; intros H; [done|].
  simpl. unfold len in *. simpl length.
  specialize (H x (list_elem_of_here x l)) as Hx.
  assert (IHl : imageCount l <= Z.of_nat (length l)).
  { apply IH. intros msg Hmsg. apply H. by apply list_elem_of_further. }
  lia.
Qed.

Section ChatPromptMore.

Variable tensor : Type.
Variable mllama_Preprocess : api.ImageData -> error + (tensor * gmap string any).
Variable binary_Write : tensor -> error + list Byte.byte.

Local Abbreviation chatPrompt' := (chatPrompt tensor mllama_Preprocess binary_Write).
Local Abbreviation tagMessages' := (tagMessages tensor mllama_Preprocess binary_Write).
Local Abbreviation encoded := (encodedBy mllama_Preprocess binary_Write).

(** X9.  An error of the template or of the tokenizer during truncation is
    returned as it is, with an empty prompt and no payloads: this is the
    case for the candidate window at any index [k < N-1] that the scan
    reaches, that is, when the candidates after [k] fit the budget and
    (under the packed family) no message from [k] on has more than one
    image. *)
Theorem chatPrompt_render_error m tokenize opts msgs tools (k : nat) (e : error) :
  (k < length msgs - 1)%nat ->
  imagesAccepted m msgs k ->
  (forall i, (k < i < length msgs - 1)%nat ->
             fits m tokenize msgs tools (api.NumCtx opts) i) ->
  (Template m (template.mkValues (candidate msgs k) tools) = inl e \/
   exists b, Template m (template.mkValues (candidate msgs k) tools) = inr b /\
             tokenize b = inl e) ->
  chatPrompt' m tokenize opts msgs tools = Returns "" [] (Some e).
Proof.
  intros Hk Hacc Hfits Hfail. unfold chatPrompt, chatPrompt_body.
  by rewrite (truncate_render_error m tokenize opts msgs tools k e).
Qed.

(** X10.  A conversation without images: a successful call returns no payload
    and its prompt is the rendering of the carried system messages and
    the window, with every message as it was given. *)
Theorem chatPrompt_no_images m tokenize opts msgs tools prompt images :
  Forall (fun msg => api.Images msg = []) msgs ->
  chatPrompt' m tokenize opts msgs tools = Returns prompt images None ->
  images = [] /\
  exists w : nat,
    (w < length msgs)%nat /\
    truncate m tokenize opts msgs tools = Ok (Z.of_nat w, carried msgs (w - 1)) /\
    Template m (template.mkValues (carried msgs (w - 1) ++ drop w msgs) tools)
      = inr prompt.
Proof.
  intros Hno Hret.
  apply chatPrompt_success in Hret as (w & window' & _ & Hw & Htr & Htag & Hrender).
  rewrite (tagMessages_no_images tensor mllama_Preprocess binary_Write m) in Htag
    by (by apply Forall_drop).
  injection Htag as <- <-. split; [reflexivity|]. by exists w.
Qed.

(** X13.  Under the packed family, the payloads of a successful call are the
    encodings of the images of the window, one for one and in order:
    each carries the bytes written from the tensor that
    [mllama.Preprocess] gives for its image and the aspect ratio index
    that it reports. *)
Theorem chatPrompt_packed_payloads m tokenize opts msgs tools prompt images :
  isMllama m = true ->
  chatPrompt' m tokenize opts msgs tools = Returns prompt images None ->
  exists (w : nat) (system : list api.Message),
    truncate m tokenize opts msgs tools = Ok (Z.of_nat w, system) /\
    Forall2 encoded (concat (map api.Images (drop w msgs))) images.
Proof.
  intros Hml Hret.
  apply chatPrompt_success in Hret as (w & window' & _ & _ & Htr & Htag & _).
  apply tagMessages_encoded in Htag as (new & Himages & Hnew); [|assumption].
  simpl in Himages. subst new. by exists w, (carried msgs (w - 1)).
Qed.

(** X14.  Under the packed family, a successful call has at most one image in
    each message of the window, so it returns no more payloads than the
    window has messages. *)
Theorem chatPrompt_packed_one_image m tokenize opts msgs tools prompt images :
  isMllama m = true ->
  chatPrompt' m tokenize opts msgs tools = Returns prompt images None ->
  exists (w : nat) (system : list api.Message),
    truncate m tokenize opts msgs tools = Ok (Z.of_nat w, system) /\
    (forall msg, msg ∈ drop w msgs -> len (api.Images msg) <= 1) /\
    len images <= len (drop w msgs).
Proof.
  intros Hml Hret.
  apply chatPrompt_success in Hret as (w & window' & Hne & _ & Htr & Htag & _).
  apply tagMessages_ok in Htag as (new & Himages & Hlen & _).
  simpl in Himages. subst new.
  destruct (truncate_window _ _ _ _ _ _ _ Hne Htr)
    as (w' & Hw' & _ & _ & _ & _ & Hone).
  assert (w' = w) as -> by lia.
  assert (Hwin : forall msg, msg ∈ drop w msgs -> len (api.Images msg) <= 1).
  { intros msg Hmsg. apply list_elem_of_lookup in Hmsg as [j Hj].
    rewrite lookup_drop in Hj.
    assert (Hlt : (w + j < length msgs)%nat) by (by eapply lookup_lt_Some).
    specialize (Hone (w + j)%nat msg).
    unfold tooManyImages in Hone.
    destruct (Z.le_gt_cases (len (api.Images msg)) 1) as [?|Hgt]; [assumption|].
    exfalso. apply Hone; [lia|assumption|assumption|lia]. }
  exists w, (carried msgs (w - 1)). split_and!; [assumption|assumption|].
  rewrite Hlen. by apply imageCount_le_length.
Qed.

(** Messages without images at the head of a window are passed over: the
    loop leaves them as they are and goes on with the payloads it has. *)
Lemma tagMessages_skip_no_images m (pre window : list api.Message) :
  Forall (fun msg => api.Images msg = []) pre ->
  forall images,
    tagMessages' m (pre ++ window) images =
      ('(rest, images') ← tagMessages' m window images;
       Ok (pre ++ rest, images')).
Proof.
  induction 1 as [|msg pre Hmsg _ IH]; intros images.
  - simpl. by destruct (tagMessages' m window images) as [[rest images']| |].
  - change ((msg :: pre) ++ window) with (msg :: (pre ++ window)).
    rewrite tagMessages_cons, Hmsg. simpl. rewrite IH.
    destruct (tagMessages' m window images) as [[rest images']| |]; simpl;
      try reflexivity.
    destruct msg as [role content imgs]. simpl in *. by subst imgs.
Qed.

(** Under the packed family, an image that cannot be encoded
    (preprocessing fails, writing the tensor fails, or no integer aspect
    ratio index is reported) ends the loop over its message with that
    error. *)
Lemma tagMessages_encoding_error m (msg : api.Message)
    (window : list api.Message) (images : list llm.ImageData)
    (i : api.ImageData) (imgs : list api.ImageData) (e : error) :
  isMllama m = true ->
  api.Images msg = i :: imgs ->
  (mllama_Preprocess i = inl e \/
   (exists data popts,
      mllama_Preprocess i = inr (data, popts) /\ binary_Write data = inl e) \/
   (exists data popts buf,
      mllama_Preprocess i = inr (data, popts) /\ binary_Write data = inr buf /\
      (forall ar, popts !! "aspectRatioIndex" <> Some (AnyInt ar)) /\
      e = errMissingAspectRatio)) ->
  tagMessages' m (msg :: window) images = Err e.
Proof.
  intros Hml Himgs Hfail.
  rewrite tagMessages_cons, Himgs, tagImages_cons.
  unfold tagImage at 1. rewrite Hml.
  destruct Hfail as [Hp|[(data & popts & Hp & Hw)|(data & popts & buf & Hp & Hw & Har & ->)]];
    rewrite Hp; simpl; [reflexivity| |]; rewrite Hw; simpl; [reflexivity|].
  destruct (popts !! "aspectRatioIndex") as [[ar|]|] eqn:Hlook; simpl;
    [by destruct (Har ar)|reflexivity|reflexivity].
Qed.

(** X15.  Under the packed family, when the first image of the window cannot be
    encoded (preprocessing fails, writing the tensor fails, or no integer
    aspect ratio index is reported), the call returns that error, an
    empty prompt and no payloads.  The first image of the window is the
    first image of the message at index [k >= w], where the window starts
    at [w] and the messages from [w] up to [k-1] have no images. *)
Theorem chatPrompt_encoding_error m tokenize opts msgs tools
    (w k : nat) (system : list api.Message) (msg : api.Message)
    (i : api.ImageData) (imgs : list api.ImageData) (e : error) :
  isMllama m = true ->
  truncate m tokenize opts msgs tools = Ok (Z.of_nat w, system) ->
  (w <= k)%nat ->
  (forall (j : nat) (msg' : api.Message),
     (w <= j < k)%nat -> msgs !! j = Some msg' -> api.Images msg' = []) ->
  msgs !! k = Some msg ->
  api.Images msg = i :: imgs ->
  (mllama_Preprocess i = inl e \/
   (exists data popts,
      mllama_Preprocess i = inr (data, popts) /\ binary_Write data = inl e) \/
   (exists data popts buf,
      mllama_Preprocess i = inr (data, popts) /\ binary_Write data = inr buf /\
      (forall ar, popts !! "aspectRatioIndex" <> Some (AnyInt ar)) /\
      e = errMissingAspectRatio)) ->
  chatPrompt' m tokenize opts msgs tools = Returns "" [] (Some e).
Proof.
  intros Hml Htr Hwk Hpre Hmsg Himgs Hfail. unfold chatPrompt, chatPrompt_body.
  rewrite Htr. simpl.
  pose proof (lookup_lt_Some _ _ _ Hmsg) as Hk.
  rewrite slice_from_in_range by lia. simpl.
  assert (Hsplit : drop w msgs
                   = take (k - w) (drop w msgs) ++ msg :: drop (S k) msgs).
  { rewrite <- (take_drop (k - w) (drop w msgs)) at 1. f_equal.
    rewrite drop_drop. replace (w + (k - w))%nat with k by lia.
    by apply drop_S. }
  assert (Hno : Forall (fun msg' => api.Images msg' = [])
                       (take (k - w) (drop w msgs))).
  { apply Forall_lookup. intros j msg' Hj.
    apply lookup_take_Some in Hj as [Hj Hlt].
    rewrite lookup_drop in Hj. apply (Hpre (w + j)%nat); [lia|assumption]. }
  rewrite Hsplit, (tagMessages_skip_no_images m _ _ Hno).
  by rewrite (tagMessages_encoding_error m msg _ _ i imgs e).
Qed.

(** X16.  System messages in the rendered list.  A successful call renders the
    system messages before index [w-1], then the window [msgs[w:]] with
    its roles unchanged.  No system message is rendered twice and at most
    one is missing; none is missing when the window is the whole list or
    the message just before the window is not a system message. *)
Theorem chatPrompt_system_count m tokenize opts msgs tools prompt images :
  chatPrompt' m tokenize opts msgs tools = Returns prompt images None ->
  exists (w : nat) (window' : list api.Message),
    truncate m tokenize opts msgs tools = Ok (Z.of_nat w, carried msgs (w - 1)) /\
    Template m (template.mkValues (carried msgs (w - 1) ++ window') tools)
      = inr prompt /\
    map api.Role window' = map api.Role (drop w msgs) /\
    Forall isSystem (carried msgs (w - 1)) /\
    (systemCount (carried msgs (w - 1) ++ window') <= systemCount msgs
     <= systemCount (carried msgs (w - 1) ++ window') + 1)%nat /\
    ((w = 0%nat \/ exists msg, msgs !! (w - 1)%nat = Some msg /\ ~ isSystem msg) ->
     systemCount (carried msgs (w - 1) ++ window') = systemCount msgs).
Proof.
  intros Hret.
  apply chatPrompt_success in Hret as (w & window' & _ & Hw & Htr & Htag & Hrender).
  apply tagMessages_ok in Htag as (new & _ & _ & _ & _ & Hroles & _).
  exists w, window'.
  assert (Hfinal : systemCount (carried msgs (w - 1) ++ window')
                   = (systemCount (take (w - 1) msgs) + systemCount (drop w msgs))%nat).
  { by rewrite systemCount_app, systemCount_carried, (systemCount_roles _ _ Hroles). }
  assert (Hall : systemCount msgs
                 = (systemCount (take (w - 1) msgs)
                    + systemCount (drop (w - 1) msgs))%nat).
  { by rewrite <- systemCount_app, take_drop. }
  assert (Hsys : Forall isSystem (carried msgs (w - 1))).
  { unfold carried. apply Forall_forall. intros x Hx.
    by apply list_elem_of_filter in Hx as [Hx _]. }
  assert (Hbounds : (systemCount (carried msgs (w - 1) ++ window') <= systemCount msgs
                     <= systemCount (carried msgs (w - 1) ++ window') + 1)%nat).
  { rewrite Hfinal, Hall. destruct w as [|w]; [simpl; lia|].
    replace (S w - 1)%nat with w by lia.
    destruct (lookup_lt_is_Some_2 msgs w) as [x Hx]; [lia|].
    rewrite (drop_S msgs x w Hx).
    change (x :: drop (S w) msgs) with ([x] ++ drop (S w) msgs).
    rewrite systemCount_app. pose proof (systemCount_singleton x) as Hone.
    destruct (decide (isSystem x)); lia. }
  split_and!; try assumption; try lia.
  intros Hb. rewrite Hfinal, Hall. destruct w as [|w]; [reflexivity|].
  destruct Hb as [?|(x & Hx & Hnot)]; [lia|].
  replace (S w - 1)%nat with w in * by lia.
  rewrite (drop_S msgs x w Hx).
  change (x :: drop (S w) msgs) with ([x] ++ drop (S w) msgs).
  rewrite systemCount_app. pose proof (systemCount_singleton x) as Hone.
  destruct (decide (isSystem x)); [done|]. lia.
Qed.

End ChatPromptMore.

(** ** The further properties on examples *)

(** A history of 25 tokens under a budget of 100: the window is the whole
    list and nothing is carried. *)
Lemma truncate_characterization_witness :
  truncate Fixtures.clip Fixtures.tokenize (api.mkOptions 100)
    Fixtures.two_systems []
  = Ok (Z.of_nat 0, []).
Proof.
  assert (Hw : (0 < length Fixtures.two_systems)%nat) by (simpl; lia).
  apply (proj2 (truncate_characterization Fixtures.clip Fixtures.tokenize
                  (api.mkOptions 100) Fixtures.two_systems [] 0 [] Hw)).
  split_and!.
  - intros Hml. discriminate Hml.
  - intros j Hj. simpl in Hj.
    assert (Hcases : j = 0%nat \/ j = 1%nat) by lia.
    destruct Hcases as [-> | ->]; exists 25;
      (split; [eexists _, _; split_and!; reflexivity | vm_compute; discriminate]).
  - intros Hpos. lia.
  - reflexivity.
Defined.

(** A tokenizer that fails on the first candidate window. *)
Lemma chatPrompt_render_error_witness :
  Fixtures.run Fixtures.clip Fixtures.tokenize_fails 100 Fixtures.two_turns
  = Returns "" [] (Some (errExternal "tokenize")).
Proof.
  apply (chatPrompt_render_error (list Byte.byte) Fixtures.preprocess
           Fixtures.write Fixtures.clip Fixtures.tokenize_fails
           (api.mkOptions 100) Fixtures.two_turns [] 0
           (errExternal "tokenize")).
  - simpl. lia.
  - intros Hml. discriminate Hml.
  - intros i Hi. simpl in Hi. lia.
  - right. eexists. split; reflexivity.
Defined.

Lemma chatPrompt_no_images_witness :
  (@nil llm.ImageData) = [] /\
  exists w : nat,
    (w < length Fixtures.two_turns)%nat /\
    truncate Fixtures.clip Fixtures.tokenize (api.mkOptions 100)
      Fixtures.two_turns []
    = Ok (Z.of_nat w, carried Fixtures.two_turns (w - 1)) /\
    Template Fixtures.clip
      (template.mkValues (carried Fixtures.two_turns (w - 1)
                          ++ drop w Fixtures.two_turns) [])
    = inr "user:a;user:b;"%string.
Proof.
  apply (chatPrompt_no_images (list Byte.byte) Fixtures.preprocess Fixtures.write
           Fixtures.clip Fixtures.tokenize (api.mkOptions 100)
           Fixtures.two_turns [] "user:a;user:b;" []).
  - repeat constructor.
  - reflexivity.
Defined.

(** The placeholder of a content is replaced by the tag of the image. *)
Lemma tagImage_places_tag_witness :
  if strings_Contains "see [img] now" "[img]"
  then EmptyString = EmptyString /\
       exists a b : string,
         "see [img] now"%string = a +:+ "[img]" +:+ b /\
         "see [img-0] now"%string = a +:+ imgTag_of (len (@nil llm.ImageData)) +:+ b /\
         (forall p : nat,
            (p < String.length a)%nat ->
            String.substring p 5 "see [img] now" <> "[img]"%string)
  else EmptyString = EmptyString +:+ imgTag_of (len (@nil llm.ImageData)) /\
       "see [img-0] now"%string = "see [img] now"%string.
Proof.
  apply (tagImage_places_tag (list Byte.byte) Fixtures.preprocess Fixtures.write
           Fixtures.clip EmptyString EmptyString "see [img] now" []
           Fixtures.img1 EmptyString EmptyString "see [img-0] now"
           [llm.mkImageData Fixtures.img1 0 0]).
  reflexivity.
Defined.

(** Two images on a content without placeholder. *)
Lemma tagMessages_prepends_tags_witness :
  tagMessages (list Byte.byte) Fixtures.preprocess Fixtures.write Fixtures.clip
    [Fixtures.user "b" [Fixtures.img1; Fixtures.img2]] []
  = Ok ([api.mkMessage "user" "[img-0][img-1]b" [Fixtures.img1; Fixtures.img2]],
        [llm.mkImageData Fixtures.img1 0 0; llm.mkImageData Fixtures.img2 1 0]).
Proof.
  apply (tagMessages_prepends_tags (list Byte.byte) Fixtures.preprocess
           Fixtures.write Fixtures.clip
           (Fixtures.user "b" [Fixtures.img1; Fixtures.img2]) [] []).
  - reflexivity.
  - reflexivity.
Defined.

Lemma chatPrompt_packed_payloads_witness :
  exists (w : nat) (system : list api.Message),
    truncate Fixtures.mllama Fixtures.tokenize (api.mkOptions 100)
      Fixtures.one_image_turn [] = Ok (Z.of_nat w, system) /\
    Forall2 (encodedBy Fixtures.preprocess Fixtures.write)
      (concat (map api.Images (drop w Fixtures.one_image_turn)))
      [llm.mkImageData Fixtures.img3 0 1].
Proof.
  apply (chatPrompt_packed_payloads (list Byte.byte) Fixtures.preprocess
           Fixtures.write Fixtures.mllama Fixtures.tokenize (api.mkOptions 100)
           Fixtures.one_image_turn [] "user:[img-0]<|image|>b;").
  - reflexivity.
  - reflexivity.
Defined.

Lemma chatPrompt_packed_one_image_witness :
  exists (w : nat) (system : list api.Message),
    truncate Fixtures.mllama Fixtures.tokenize (api.mkOptions 100)
      Fixtures.one_image_turn [] = Ok (Z.of_nat w, system) /\
    (forall msg, msg ∈ drop w Fixtures.one_image_turn ->
                 len (api.Images msg) <= 1) /\
    len [llm.mkImageData Fixtures.img3 0 1] <= len (drop w Fixtures.one_image_turn).
Proof.
  apply (chatPrompt_packed_one_image (list Byte.byte) Fixtures.preprocess
           Fixtures.write Fixtures.mllama Fixtures.tokenize (api.mkOptions 100)
           Fixtures.one_image_turn [] "user:[img-0]<|image|>b;").
  - reflexivity.
  - reflexivity.
Defined.

(** An encoder that reports no aspect ratio, on a window whose first
    image is in its second message. *)
Lemma chatPrompt_encoding_error_witness :
  chatPrompt (list Byte.byte) Fixtures.preprocess_no_ratio Fixtures.write
    Fixtures.mllama Fixtures.tokenize (api.mkOptions 100)
    Fixtures.text_then_image []
  = Returns "" [] (Some errMissingAspectRatio).
Proof.
  apply (chatPrompt_encoding_error (list Byte.byte) Fixtures.preprocess_no_ratio
           Fixtures.write Fixtures.mllama Fixtures.tokenize (api.mkOptions 100)
           Fixtures.text_then_image [] 0 1 []
           (Fixtures.user "b" [Fixtures.img3]) Fixtures.img3 []).
  - reflexivity.
  - reflexivity.
  - lia.
  - intros j msg' Hj Hmsg'. assert (j = 0%nat) as -> by lia.
    injection Hmsg' as <-. reflexivity.
  - reflexivity.
  - reflexivity.
  - right. right. exists Fixtures.img3, ∅, Fixtures.img3.
    split_and!; try reflexivity. intros ar Har. discriminate Har.
Defined.

(** The conversation in which the system message before the window is
    lost: one of two system messages is rendered. *)
Lemma chatPrompt_system_count_witness :
  exists (w : nat) (window' : list api.Message),
    truncate Fixtures.clip Fixtures.tokenize (api.mkOptions 15)
      Fixtures.two_systems []
    = Ok (Z.of_nat w, carried Fixtures.two_systems (w - 1)) /\
    Template Fixtures.clip
      (template.mkValues (carried Fixtures.two_systems (w - 1) ++ window') [])
    = inr "system:T;user:b;"%string /\
    map api.Role window' = map api.Role (drop w Fixtures.two_systems) /\
    Forall isSystem (carried Fixtures.two_systems (w - 1)) /\
    (systemCount (carried Fixtures.two_systems (w - 1) ++ window')
     <= systemCount Fixtures.two_systems
     <= systemCount (carried Fixtures.two_systems (w - 1) ++ window') + 1)%nat /\
    ((w = 0%nat \/
      exists msg, Fixtures.two_systems !! (w - 1)%nat = Some msg /\ ~ isSystem msg) ->
     systemCount (carried Fixtures.two_systems (w - 1) ++ window')
     = systemCount Fixtures.two_systems).
Proof.
  apply (chatPrompt_system_count (list Byte.byte) Fixtures.preprocess Fixtures.write
           Fixtures.clip Fixtures.tokenize (api.mkOptions 15)
           Fixtures.two_systems [] "system:T;user:b;" []).
  reflexivity.
Defined.

(** ** An older message in front of a truncated conversation *)

Section Prepend.

Variable m : Model.
Variable tokenize : tokenizeFunc.
Variable opts : api.Options.
Variable msgs : list api.Message.
Variable tools : list api.Tool.
Variable x : api.Message.
Hypothesis x_not_system : ~ isSystem x.

Lemma candidate_cons (i : nat) : candidate (x :: msgs) (S i) = candidate msgs i.
Proof.
  unfold candidate, carried. simpl. rewrite filter_cons.
  by destruct (decide (isSystem x)).
Qed.

Lemma renderedTokens_cons (i : nat) (count : Z) :
  renderedTokens m tokenize (x :: msgs) tools (S i) count
  <-> renderedTokens m tokenize msgs tools i count.
Proof. unfold renderedTokens. by rewrite candidate_cons. Qed.

Lemma fits_cons (B : Z) (i : nat) :
  fits m tokenize (x :: msgs) tools B (S i) <-> fits m tokenize msgs tools B i.
Proof.
  unfold fits, imageTokens. simpl drop.
  split; intros (count & Hc & Hle); exists count;
    (split; [by apply renderedTokens_cons|assumption]).
Qed.

Lemma exceeds_cons (B : Z) (i : nat) :
  exceeds m tokenize (x :: msgs) tools B (S i)
  <-> exceeds m tokenize msgs tools B i.
Proof.
  unfold exceeds, imageTokens. simpl drop.
  split; intros (count & Hc & Hle); exists count;
    (split; [by apply renderedTokens_cons|assumption]).
Qed.

(** When the window of a conversation does not reach its first message,
    putting an older message that is not a system message in front of
    the conversation leaves the window and the carried system messages
    as they are (the start index moves by one). *)
Theorem truncate_prepend (w : nat) (system : list api.Message) :
  (0 < w)%nat ->
  truncate m tokenize opts msgs tools = Ok (Z.of_nat w, system) ->
  truncate m tokenize opts (x :: msgs) tools = Ok (Z.of_nat (S w), system).
Proof.
  intros Hw Htr.
  assert (Hne : msgs <> []).
  { intros ->. rewrite truncate_nil in Htr. injection Htr as Hneg _. lia. }
  destruct (truncate_window _ _ _ _ _ _ _ Hne Htr)
    as (w' & Hw' & Hlt & Hfits & Hexc & -> & Hone).
  assert (w' = w) as -> by lia. clear Hw'.
  destruct w as [|v]; [lia|].
  replace (carried msgs (S v - 1)) with (carried (x :: msgs) (S (S v) - 1)).
  2:{ replace (S (S v) - 1)%nat with (S v) by lia.
      replace (S v - 1)%nat with v by lia.
      unfold carried. simpl. rewrite filter_cons.
      by destruct (decide (isSystem x)). }
  apply truncate_selects.
  - simpl. lia.
  - intros Hml j msg Hj Hmsg.
    destruct j as [|j]; [simpl in Hj; lia|]. simpl in Hmsg.
    pose proof (lookup_lt_Some _ _ _ Hmsg) as Hlen.
    apply (Hone j msg); [lia|assumption|assumption].
  - intros j Hj. simpl in Hj.
    destruct j as [|j]; [lia|]. apply fits_cons. apply Hfits. lia.
  - intros _. replace (S (S v) - 1)%nat with (S v) by lia.
    apply exceeds_cons. replace v with (S v - 1)%nat by lia.
    apply Hexc. lia.
Qed.

End Prepend.

(** X5.  When the window of a conversation does not reach its first
    message, the whole call is unchanged by an older message, not a
    system message, put in front: same prompt, same payloads, same
    error. *)
Theorem chatPrompt_prepend tensor mllama_Preprocess binary_Write
    m tokenize opts msgs tools (x : api.Message)
    (w : nat) (system : list api.Message) :
  ~ isSystem x ->
  (0 < w)%nat ->
  truncate m tokenize opts msgs tools = Ok (Z.of_nat w, system) ->
  chatPrompt tensor mllama_Preprocess binary_Write m tokenize opts (x :: msgs) tools
  = chatPrompt tensor mllama_Preprocess binary_Write m tokenize opts msgs tools.
Proof.
  intros Hx Hw Htr. unfold chatPrompt, chatPrompt_body.
  rewrite (truncate_prepend m tokenize opts msgs tools x Hx w system Hw Htr).
  rewrite Htr. simpl.
  assert (Hne : msgs <> []).
  { intros ->. rewrite truncate_nil in Htr. injection Htr as Hneg _. lia. }
  destruct (truncate_window _ _ _ _ _ _ _ Hne Htr) as (w' & Hw' & Hlt & _).
  assert (w' = w) as -> by lia.
  rewrite (slice_from_in_range (x :: msgs) (S w)) by (simpl; lia).
  rewrite (slice_from_in_range msgs w) by lia.
  reflexivity.
Qed.

Lemma chatPrompt_prepend_witness :
  Fixtures.run Fixtures.clip Fixtures.tokenize 15
    (Fixtures.user "old" [] :: Fixtures.two_systems)
  = Fixtures.run Fixtures.clip Fixtures.tokenize 15 Fixtures.two_systems.
Proof.
  apply (chatPrompt_prepend (list Byte.byte) Fixtures.preprocess Fixtures.write
           Fixtures.clip Fixtures.tokenize (api.mkOptions 15)
           Fixtures.two_systems [] (Fixtures.user "old" [])
           2 [Fixtures.system "T"]).
  - unfold isSystem. simpl. discriminate.
  - lia.
  - reflexivity.
Defined.
